(** * Arena Market: the transactional shop-state engine

    A shallow embedding of the shop engine of the Arena Market module
    (market-store.js, config.js, socket-handler.js, module.js,
    player-shop.js, shop-manager.js) and the properties of its purchase and
    reservation protocols.

    Conventions of the embedding:
    - the host's persistent settings, actors, users and item catalogue are
      the fields of one record [World]; an asynchronous function of the
      source that reads and writes them is a function from [World] to a
      result and a new [World]: it describes a call that runs from its
      first line to its return with no other call of the engine running
      in between. The source awaits inside [purchaseItem] and
      [reserveItem] and the listener of module.js starts one call for
      each message without waiting for the previous one, so calls can
      overlap in the running program; statements about several calls are
      about calls that run one after the other;
    - a setting holds the value that was last written to it; the form in
      which the host keeps a setting between a write and a read is not
      part of the embedding;
    - dynamically typed fields are of type [value] below; a JavaScript
      number is an IEEE 754 double, with its rounding, its infinities
      and NaN;
    - what the host returns for [foundry.utils.randomID()] and
      [new Date().toISOString()] during a call is an argument of the call. *)

From Stdlib Require Import ZArith String List Bool Lia Floats.
From stdpp Require Import base option list gmap strings fin_maps.
Import ListNotations.
Local Open Scope string_scope.
Local Open Scope list_scope.
Local Open Scope Z_scope.

(** ** JavaScript values and operators used by the engine *)

Module Js.

(** A JavaScript number is a double: the binary64 numbers of the kernel,
    with the arithmetic of IEEE 754 (round to nearest, ties to even). *)
Definition number : Type := float.

Definition NaN : number := nan.

(** The double nearest to an integer; every integer of magnitude up to
    2^53 is a double. *)
Definition Num (z : Z) : number :=
  SF2Prim (binary_normalize prec emax z 0 false).

(** The values a stock, quantity, price or balance field can hold:
    [undefined] (the key is absent), [null], the empty string (the raw
    value of an empty form field) or a number. *)
Inductive value : Type :=
| Undefined
| Null
| EmptyStr
| VNum (n : number).

Definition int (z : Z) : value := VNum (Num z).

(** [Number(v)], the conversion that arithmetic and comparison apply. *)
Definition ToNumber (v : value) : number :=
  match v with
  | Undefined => NaN
  | Null => Num 0
  | EmptyStr => Num 0
  | VNum n => n
  end.

(** [v === null || v === undefined] *)
Definition is_nullish (v : value) : bool :=
  match v with
  | Undefined | Null => true
  | _ => false
  end.

(** [a ?? b] *)
Definition coalesce (a b : value) : value :=
  if is_nullish a then b else a.

(** Truthiness: [undefined], [null], [''], [NaN], [0] and [-0] are
    falsy. *)
Definition truthy (v : value) : bool :=
  match v with
  | VNum n => negb (PrimFloat.is_nan n || PrimFloat.is_zero n)
  | _ => false
  end.

(** [a || b] *)
Definition or_else (a b : value) : value :=
  if truthy a then a else b.

(** [a <= b] on numbers: false as soon as one side is NaN. *)
Definition num_le (a b : number) : bool := PrimFloat.leb a b.

(** [a - b] on numbers: the double nearest to the difference. *)
Definition num_sub (a b : number) : number := PrimFloat.sub a b.

(** [a <= b], [a >= b] and [a - b] on values. *)
Definition le (a b : value) : bool := num_le (ToNumber a) (ToNumber b).
Definition ge (a b : value) : bool := num_le (ToNumber b) (ToNumber a).
Definition sub (a b : value) : value := VNum (num_sub (ToNumber a) (ToNumber b)).

End Js.

Import Js.

Infix "??" := coalesce (at level 45, right associativity).

(** ** config.js: the persistent settings *)

Module Config.

Module AVAILABILITY_TYPES.
Definition UNLIMITED : string := "unlimited".
Definition LIMITED : string := "limited".
Definition RESERVATION : string := "reservation".
End AVAILABILITY_TYPES.

(** One entry of [shopConfig.items]:
    [{ availability, quantity, customPrice, currentStock }]. A missing
    [availability] key is [None]. *)
Record Entry : Type := {
  availability : option string;
  quantity : value;
  customPrice : value;
  currentStock : value
}.

Record ShopConfig : Type := {
  compendiums : list string;
  items : gmap string Entry
}.

(** One element of the [activityLog] setting. [price] and [currency] are
    present on purchases only. *)
Record LogEntry : Type := {
  log_type : string;
  log_actorId : string;
  log_actorName : string;
  log_playerName : string;
  log_itemUuid : string;
  log_itemName : string;
  log_price : option value;
  log_currency : option string;
  log_id : string;
  log_timestamp : string
}.

(** What the callers of [addActivityLog] pass: the entry without [id] and
    [timestamp]. *)
Record LogData : Type := {
  data_type : string;
  data_actorId : string;
  data_actorName : string;
  data_playerName : string;
  data_itemUuid : string;
  data_itemName : string;
  data_price : option value;
  data_currency : option string
}.

Record Reservation : Type := {
  res_actorId : string;
  res_actorName : string;
  res_playerName : string;
  res_timestamp : string
}.

(** A catalogue item as [fromUuid] resolves it: [item.name] and
    [item.system?.price?.value]. *)
Record Item : Type := {
  item_name : string;
  price_value : value
}.

(** A character: [actor.name], [actor.system.currency.gp],
    [actor.ownership] (user id and permission level, in the order of
    [Object.keys]; [None] when the actor has no ownership object) and the
    embedded items. *)
Record Actor : Type := {
  actor_name : string;
  gp : value;
  ownership : option (list (string * Z));
  embedded : list Item
}.

(** The state one session sees: [game.actors], [game.users] (id to name),
    the catalogue behind [fromUuid], and the five settings of the
    module. *)
Record World : Type := {
  actors : gmap string Actor;
  users : gmap string string;
  catalog : gmap string Item;
  currencyName : string;
  shopOpen : bool;
  shopConfig : ShopConfig;
  activityLog : list LogEntry;
  reservations : gmap string (list Reservation)
}.

Definition set_actors (f : gmap string Actor → gmap string Actor) (w : World) : World :=
  {| actors := f (actors w); users := users w; catalog := catalog w;
     currencyName := currencyName w; shopOpen := shopOpen w;
     shopConfig := shopConfig w; activityLog := activityLog w;
     reservations := reservations w |}.

Definition set_shopOpen (b : bool) (w : World) : World :=
  {| actors := actors w; users := users w; catalog := catalog w;
     currencyName := currencyName w; shopOpen := b;
     shopConfig := shopConfig w; activityLog := activityLog w;
     reservations := reservations w |}.

Definition set_activityLog (l : list LogEntry) (w : World) : World :=
  {| actors := actors w; users := users w; catalog := catalog w;
     currencyName := currencyName w; shopOpen := shopOpen w;
     shopConfig := shopConfig w; activityLog := l;
     reservations := reservations w |}.

Definition set_reservations (r : gmap string (list Reservation)) (w : World) : World :=
  {| actors := actors w; users := users w; catalog := catalog w;
     currencyName := currencyName w; shopOpen := shopOpen w;
     shopConfig := shopConfig w; activityLog := activityLog w;
     reservations := r |}.

Definition getCurrencyName (w : World) : string := currencyName w.

Definition isShopOpen (w : World) : bool := shopOpen w.

(** [toggleShop]: stores and returns the negated flag. *)
Definition toggleShop (w : World) : bool * World :=
  let currentState := isShopOpen w in
  (negb currentState, set_shopOpen (negb currentState) w).

Definition getShopConfig (w : World) : ShopConfig := shopConfig w.

Definition setShopConfig (config : ShopConfig) (w : World) : World :=
  {| actors := actors w; users := users w; catalog := catalog w;
     currencyName := currencyName w; shopOpen := shopOpen w;
     shopConfig := config; activityLog := activityLog w;
     reservations := reservations w |}.

Definition getActivityLog (w : World) : list LogEntry := activityLog w.

Definition stamp (entry : LogData) (id timestamp : string) : LogEntry :=
  {| log_type := data_type entry; log_actorId := data_actorId entry;
     log_actorName := data_actorName entry;
     log_playerName := data_playerName entry;
     log_itemUuid := data_itemUuid entry;
     log_itemName := data_itemName entry; log_price := data_price entry;
     log_currency := data_currency entry; log_id := id;
     log_timestamp := timestamp |}.

(** The list part of [addActivityLog]: [log.unshift(e)], then
    [if (log.length > 500) log.pop()]. The log is newest first. *)
Definition log_push (e : LogEntry) (log : list LogEntry) : list LogEntry :=
  let log := e :: log in
  if Nat.ltb 500 (length log) then removelast log else log.

Definition addActivityLog (id timestamp : string) (entry : LogData) (w : World) : World :=
  let log := getActivityLog w in
  set_activityLog (log_push (stamp entry id timestamp) log) w.

(** [deleteActivityLogEntry]: [findIndex] then [splice(index, 1)] removes
    the first entry with that id. *)
Fixpoint remove_first (entryId : string) (log : list LogEntry) : list LogEntry :=
  match log with
  | [] => []
  | e :: rest =>
      if String.eqb (log_id e) entryId then rest
      else e :: remove_first entryId rest
  end.

Definition deleteActivityLogEntry (entryId : string) (w : World) : World :=
  set_activityLog (remove_first entryId (getActivityLog w)) w.

Definition clearActivityLog (w : World) : World := set_activityLog [] w.

Definition getReservations (w : World) : gmap string (list Reservation) :=
  reservations w.

(** [addReservation]: creates the item's list when it is missing, pushes
    the record, stores the map. The source function returns nothing. *)
Definition addReservation (timestamp : string)
    (itemUuid actorId actorName playerName : string) (w : World) : World :=
  let reservations := getReservations w in
  let reservations :=
    match reservations !! itemUuid with
    | None => <[itemUuid := []]> reservations
    | Some _ => reservations
    end in
  let reservations :=
    alter (λ l, l ++ [ {| res_actorId := actorId; res_actorName := actorName;
                          res_playerName := playerName;
                          res_timestamp := timestamp |} ]) itemUuid reservations in
  set_reservations reservations w.

Definition clearItemReservations (itemUuid : string) (w : World) : World :=
  set_reservations (delete itemUuid (getReservations w)) w.

End Config.

Import Config.

(** ** market-store.js: prices, stock and the two transactions *)

Module MarketStore.

(** Messages are kept symbolic: a literal of the source, a key handed to
    [game.i18n.localize], or a key and its data handed to
    [game.i18n.format]. *)
Inductive Datum : Type :=
| DStr (s : string)
| DVal (v : value).

Inductive Message : Type :=
| Literal (s : string)
| Localize (key : string)
| Format (key : string) (data : list (string * Datum)).

(** The [{ success, message, newStock }] object both transactions return.
    [newStock] is [Undefined] where the source leaves the key out. *)
Record Result : Type := {
  success : bool;
  message : Message;
  newStock : value
}.

Definition failure (m : Message) : Result :=
  {| success := false; message := m; newStock := Undefined |}.

(** The failure results, each with the message its return site builds. *)
Definition ActorNotFound : Result := failure (Literal "Actor not found").
Definition ItemNotFound : Result := failure (Literal "Item not found").
Definition ItemNotConfigured : Result :=
  failure (Literal "Item not configured in shop").
Definition SoldOut : Result :=
  failure (Localize "ARENA_MARKET.Notifications.ItemSoldOut").
Definition InsufficientFunds (w : World) : Result :=
  failure (Format "ARENA_MARKET.Notifications.NotEnoughGold"
                  [("currency", DStr (getCurrencyName w))]).
Definition NotReservable : Result :=
  failure (Literal "Item is not available for reservation").
Definition AlreadyReserved : Result :=
  failure (Literal "Hai giÃ  prenotato questo oggetto!").

Definition getItemConfig (itemUuid : string) (w : World) : option Entry :=
  items (getShopConfig w) !! itemUuid.

(** [itemConfig?.customPrice] *)
Definition customPrice_of (itemConfig : option Entry) : value :=
  match itemConfig with
  | Some c => customPrice c
  | None => Undefined
  end.

Definition getItemPrice (item : Item) (itemConfig : option Entry) : value :=
  match customPrice_of itemConfig with
  | Null | Undefined | EmptyStr => or_else (price_value item) (int 0)
  | VNum n => VNum (ToNumber (VNum n))
  end.

Definition is_availability (kind : string) (itemConfig : Entry) : bool :=
  match availability itemConfig with
  | Some a => String.eqb a kind
  | None => false
  end.

(** [null] stands for unlimited. *)
Definition getAvailableStock (itemUuid : string) (w : World) : value :=
  let config := getShopConfig w in
  match items config !! itemUuid with
  | None => Null
  | Some itemConfig =>
      if is_availability AVAILABILITY_TYPES.UNLIMITED itemConfig then Null
      else currentStock itemConfig ?? quantity itemConfig ?? int 0
  end.

Definition canAfford (actor : Actor) (price : value) : bool :=
  let gold := or_else (gp actor) (int 0) in
  ge gold price.

(** [Object.keys(ownership).find(id => ownership[id] === 3 && id !== 'default')] *)
Definition find_owner (o : list (string * Z)) : option string :=
  fst <$> List.find (λ p, Z.eqb (snd p) 3 && negb (String.eqb (fst p) "default")) o.

(** [game.users.get(id)?.name || 'Unknown'] *)
Definition user_name_or_unknown (w : World) (id : option string) : string :=
  match id ≫= (λ i, users w !! i) with
  | Some n => if String.eqb n "" then "Unknown" else n
  | None => "Unknown"
  end.

(** The player name of the purchase log entry: the lookup key is [null]
    when the actor has no ownership object. *)
Definition purchase_playerName (w : World) (actor : Actor) : string :=
  user_name_or_unknown w
    (match ownership actor with
     | Some o => find_owner o
     | None => None
     end).

(** The player name of a reservation: [Object.keys(actor.ownership || {})]. *)
Definition reserve_playerName (w : World) (actor : Actor) : string :=
  user_name_or_unknown w (find_owner (default [] (ownership actor))).

(** [actor.update({'system.currency.gp': v})] *)
Definition actor_update_gp (actorId : string) (v : value) (w : World) : World :=
  set_actors (alter (λ a, {| actor_name := actor_name a; gp := v;
                             ownership := ownership a;
                             embedded := embedded a |}) actorId) w.

(** [actor.createEmbeddedDocuments('Item', [itemData])], with [itemData]
    the copy [item.toObject()] made, its [_id] deleted. *)
Definition actor_createEmbeddedItem (actorId : string) (itemData : Item) (w : World) : World :=
  set_actors (alter (λ a, {| actor_name := actor_name a; gp := gp a;
                             ownership := ownership a;
                             embedded := embedded a ++ [itemData] |}) actorId) w.

(** [config.items[itemUuid].currentStock = newStock] *)
Definition set_currentStock (itemUuid : string) (newStock : value) (config : ShopConfig) : ShopConfig :=
  {| compendiums := compendiums config;
     items := alter (λ e, {| availability := availability e;
                             quantity := quantity e;
                             customPrice := customPrice e;
                             currentStock := newStock |}) itemUuid (items config) |}.

(** [purchaseItem], as one call that runs from its first line to its
    return. The source awaits the item lookup, the update of the actor,
    the creation of the item, the write of the configuration and the
    append to the log; in the program another call can run at each of
    these points. *)
Definition purchaseItem (id timestamp : string) (actorId itemUuid : string) (w : World)
  : Result * World :=
  match actors w !! actorId with
  | None => (ActorNotFound, w)
  | Some actor =>
  match catalog w !! itemUuid with
  | None => (ItemNotFound, w)
  | Some item =>
  let config := getShopConfig w in
  match items config !! itemUuid with
  | None => (ItemNotConfigured, w)
  | Some itemConfig =>
  let limited := is_availability AVAILABILITY_TYPES.LIMITED itemConfig in
  if limited && le (currentStock itemConfig ?? quantity itemConfig) (int 0)
  then (SoldOut, w)
  else
  let price := getItemPrice item (Some itemConfig) in
  if negb (canAfford actor price) then (InsufficientFunds w, w)
  else
  (* deduct gold *)
  let currentGold := gp actor in
  let w := actor_update_gp actorId (sub currentGold price) w in
  (* add the item to the actor's inventory *)
  let w := actor_createEmbeddedItem actorId item w in
  (* update stock for limited items *)
  let config :=
    if limited
    then set_currentStock itemUuid
           (sub (currentStock itemConfig ?? quantity itemConfig) (int 1)) config
    else config in
  let w := if limited then setShopConfig config w else w in
  (* log activity *)
  let w := addActivityLog id timestamp
             {| data_type := "purchase"; data_actorId := actorId;
                data_actorName := actor_name actor;
                data_playerName := purchase_playerName w actor;
                data_itemUuid := itemUuid; data_itemName := item_name item;
                data_price := Some price;
                data_currency := Some (getCurrencyName w) |} w in
  ({| success := true;
      message := Format "ARENA_MARKET.Notifications.PurchaseSuccess"
                   [("item", DStr (item_name item)); ("price", DVal price);
                    ("currency", DStr (getCurrencyName w))];
      newStock := if limited
                  then from_option currentStock Undefined (items config !! itemUuid)
                  else Null |}, w)
  end end end.

Definition reserveItem (timestamp id timestamp' : string) (actorId itemUuid : string) (w : World)
  : Result * World :=
  match actors w !! actorId with
  | None => (ActorNotFound, w)
  | Some actor =>
  match catalog w !! itemUuid with
  | None => (ItemNotFound, w)
  | Some item =>
  let config := getShopConfig w in
  match items config !! itemUuid with
  | None => (NotReservable, w)
  | Some itemConfig =>
  if negb (is_availability AVAILABILITY_TYPES.RESERVATION itemConfig)
  then (NotReservable, w)
  else
  (* already reserved by this actor? *)
  let reservations := getReservations w in
  let existing :=
    reservations !! itemUuid ≫= List.find (λ r, String.eqb (res_actorId r) actorId) in
  match existing with
  | Some _ => (AlreadyReserved, w)
  | None =>
  let playerName := reserve_playerName w actor in
  let w := addReservation timestamp itemUuid actorId (actor_name actor) playerName w in
  let w := addActivityLog id timestamp'
             {| data_type := "reservation"; data_actorId := actorId;
                data_actorName := actor_name actor;
                data_playerName := playerName;
                data_itemUuid := itemUuid; data_itemName := item_name item;
                data_price := None; data_currency := None |} w in
  ({| success := true;
      message := Format "ARENA_MARKET.Notifications.ReservationSuccess"
                   [("item", DStr (item_name item))];
      newStock := Undefined |}, w)
  end end end end.

(** GM only: a direct override of the stock of a configured item. *)
Definition updateStock (itemUuid : string) (newStock : value) (w : World) : World :=
  let config := getShopConfig w in
  match items config !! itemUuid with
  | Some _ => setShopConfig (set_currentStock itemUuid newStock config) w
  | None => w
  end.

End MarketStore.

Import MarketStore.

(** ** socket-handler.js and the messages on the module's socket channel *)

Module SocketHandler.

Module SOCKET_EVENTS.
Definition SHOP_STATE_CHANGED : string := "shopStateChanged".
Definition ITEM_PURCHASED : string := "itemPurchased".
Definition ITEM_RESERVED : string := "itemReserved".
Definition CONFIG_UPDATED : string := "configUpdated".
Definition REFRESH_UI : string := "refreshUI".
End SOCKET_EVENTS.

Inductive Payload : Type :=
| PShopState (isOpen : bool)
| PItemPurchased (itemUuid : string) (newStock : value)
| PItemReserved (itemUuid : string) (actorName : option string) (playerName : string)
| PEmpty.

(** The three shapes of object the module sends on the channel. A field
    that the sending code does not set is [None]: it reads back as
    [undefined]. *)
Inductive SocketData : Type :=
| Request (action : string) (actorId itemUuid : string) (sender : option string)
| Reply (action : string) (result : Result) (targetUser : option string)
| Event (event : string) (payload : Payload) (sender : option string).

(** [data.action], [data.sender], [data.targetUser] *)
Definition action_of (data : SocketData) : option string :=
  match data with
  | Request a _ _ _ | Reply a _ _ => Some a
  | Event _ _ _ => None
  end.

Definition sender_of (data : SocketData) : option string :=
  match data with
  | Request _ _ _ s | Event _ _ s => s
  | Reply _ _ _ => None
  end.

Definition targetUser_of (data : SocketData) : option string :=
  match data with
  | Reply _ _ t => t
  | _ => None
  end.

(** [SocketHandler.emit]: what goes on the channel, tagged with the id of
    the emitting user. (The local callbacks only re-render windows.) *)
Definition emit (user : string) (event : string) (payload : Payload) : SocketData :=
  Event event payload (Some user).

Definition emitShopStateChanged (user : string) (isOpen : bool) : SocketData :=
  emit user SOCKET_EVENTS.SHOP_STATE_CHANGED (PShopState isOpen).

Definition emitItemPurchased (user : string) (itemUuid : string) (newStock : value) : SocketData :=
  emit user SOCKET_EVENTS.ITEM_PURCHASED (PItemPurchased itemUuid newStock).

Definition emitItemReserved (user : string) (itemUuid : string)
    (actorName : option string) (playerName : string) : SocketData :=
  emit user SOCKET_EVENTS.ITEM_RESERVED (PItemReserved itemUuid actorName playerName).

Definition emitConfigUpdated (user : string) : SocketData :=
  emit user SOCKET_EVENTS.CONFIG_UPDATED PEmpty.

End SocketHandler.

Import SocketHandler.

(** What running a handler leaves behind: the new state of the session,
    the objects it put on the channel (oldest first) and the notifications
    it showed. *)
Inductive Notification : Type :=
| Info (m : Message)
| Warn (m : Message).

Record Outcome : Type := {
  world : World;
  emitted : list SocketData;
  notified : list Notification
}.

(** [game.user] of a session. *)
Record User : Type := {
  user_id : string;
  user_name : string;
  isGM : bool
}.

Definition notify (result : Result) : Notification :=
  if success result then Info (message result) else Warn (message result).

(** ** player-shop.js: the buy and reserve buttons *)

Module PlayerShop.

(** [selectedActorId] is [this._selectedActorId]; the first test,
    [!this._selectedActorId], holds for [null] and for the empty id. *)
Definition _purchaseItem (user : User) (selectedActorId : option string)
    (id timestamp : string) (uuid : string) (w : World) : Outcome :=
  match selectedActorId with
  | None =>
      {| world := w; emitted := [];
         notified := [Warn (Localize "ARENA_MARKET.Notifications.NoCharacterSelected")] |}
  | Some actorId =>
  if String.eqb actorId "" then
    {| world := w; emitted := [];
       notified := [Warn (Localize "ARENA_MARKET.Notifications.NoCharacterSelected")] |}
  else if negb (isShopOpen w) then
    {| world := w; emitted := [];
       notified := [Warn (Localize "ARENA_MARKET.Notifications.ShopClosed")] |}
  else if isGM user then
    let '(result, w) := purchaseItem id timestamp actorId uuid w in
    if success result then
      {| world := w;
         emitted := [emitItemPurchased (user_id user) uuid (newStock result)];
         notified := [Info (message result)] |}
    else
      {| world := w; emitted := []; notified := [Warn (message result)] |}
  else
    (* send the request to the GM over the socket *)
    {| world := w;
       emitted := [Request "purchaseRequest" actorId uuid None];
       notified := [] |}
  end.

Definition _reserveItem (user : User) (selectedActorId : option string)
    (timestamp id timestamp' : string) (uuid : string) (w : World) : Outcome :=
  match selectedActorId with
  | None =>
      {| world := w; emitted := [];
         notified := [Warn (Localize "ARENA_MARKET.Notifications.NoCharacterSelected")] |}
  | Some actorId =>
  if String.eqb actorId "" then
    {| world := w; emitted := [];
       notified := [Warn (Localize "ARENA_MARKET.Notifications.NoCharacterSelected")] |}
  else if negb (isShopOpen w) then
    {| world := w; emitted := [];
       notified := [Warn (Localize "ARENA_MARKET.Notifications.ShopClosed")] |}
  else if isGM user then
    let '(result, w') := reserveItem timestamp id timestamp' actorId uuid w in
    if success result then
      {| world := w';
         emitted := [emitItemReserved (user_id user) uuid
                       (actor_name <$> actors w' !! actorId) (user_name user)];
         notified := [Info (message result)] |}
    else
      {| world := w'; emitted := []; notified := [Warn (message result)] |}
  else
    {| world := w;
       emitted := [Request "reserveRequest" actorId uuid None];
       notified := [] |}
  end.

End PlayerShop.

(** ** module.js: the two socket listeners installed at [ready] *)

Module Main.

(** The listener installed when [game.user.isGM]: runs the transaction a
    request asks for and sends the result back. *)
Definition onRequest (user : User) (timestamp id timestamp' : string)
    (data : SocketData) (w : World) : Outcome :=
  match data with
  | Request action actorId itemUuid sender =>
      if String.eqb action "purchaseRequest" then
        let '(result, w) := purchaseItem id timestamp actorId itemUuid w in
        {| world := w;
           emitted :=
             (if success result
              then [emitItemPurchased (user_id user) itemUuid (newStock result)]
              else [])
             ++ [Reply "purchaseResult" result (sender_of data)];
           notified := [] |}
      else if String.eqb action "reserveRequest" then
        let '(result, w) := reserveItem timestamp id timestamp' actorId itemUuid w in
        {| world := w;
           emitted :=
             (if success result
              then [emitItemReserved (user_id user) itemUuid
                      (actor_name <$> actors w !! actorId) "Player"]
              else [])
             ++ [Reply "reserveResult" result (sender_of data)];
           notified := [] |}
      else {| world := w; emitted := []; notified := [] |}
  | _ => {| world := w; emitted := []; notified := [] |}
  end.

(** [data.targetUser === game.user.id] *)
Definition is_target (user : User) (data : SocketData) : bool :=
  match targetUser_of data with
  | Some t => String.eqb t (user_id user)
  | None => false
  end.

(** The listener every session installs: shows a result addressed to
    this session's user. *)
Definition onResult (user : User) (data : SocketData) : list Notification :=
  if is_target user data then
    match data with
    | Reply action result _ =>
        if String.eqb action "purchaseResult" || String.eqb action "reserveResult"
        then [notify result]
        else []
    | _ => []
    end
  else [].

End Main.

(** ** shop-manager.js: the admin form *)

Module ShopManager.

(** [this._itemConfigs[uuid] = {}] *)
Definition empty_entry : Entry :=
  {| availability := None; quantity := Undefined;
     customPrice := Undefined; currentStock := Undefined |}.

(** [_loadConfig]: the draft starts as a copy of the stored entries. *)
Definition _loadConfig (w : World) : gmap string Entry :=
  items (getShopConfig w).

(** [_onQuantityChange]: [parsed] is what [parseInt] made of the field. *)
Definition _onQuantityChange (uuid : string) (parsed : number)
    (_itemConfigs : gmap string Entry) : gmap string Entry :=
  let value := or_else (VNum parsed) (int 1) in
  let e := default empty_entry (_itemConfigs !! uuid) in
  <[uuid := {| availability := availability e; quantity := value;
               customPrice := customPrice e; currentStock := value |}]> _itemConfigs.

Definition _onAvailabilityChange (uuid : string) (value : string)
    (_itemConfigs : gmap string Entry) : gmap string Entry :=
  let e := default empty_entry (_itemConfigs !! uuid) in
  <[uuid := {| availability := Some value; quantity := quantity e;
               customPrice := customPrice e; currentStock := currentStock e |}]> _itemConfigs.

(** [_onCustomPriceChange]: [parsed] is [None] for an empty field and
    otherwise what [parseFloat] made of it. *)
Definition _onCustomPriceChange (uuid : string) (parsed : option number)
    (_itemConfigs : gmap string Entry) : gmap string Entry :=
  let e := default empty_entry (_itemConfigs !! uuid) in
  <[uuid := {| availability := availability e; quantity := quantity e;
               customPrice := from_option VNum Null parsed;
               currentStock := currentStock e |}]> _itemConfigs.

(** [itemConfig.availability || AVAILABILITY_TYPES.UNLIMITED] *)
Definition availability_or_unlimited (a : option string) : string :=
  match a with
  | Some s => if String.eqb s "" then AVAILABILITY_TYPES.UNLIMITED else s
  | None => AVAILABILITY_TYPES.UNLIMITED
  end.

(** [_onSaveConfig]: the stored configuration is rebuilt from the draft
    and replaces the old one. *)
Definition _onSaveConfig (_selectedCompendiums : list string)
    (_itemConfigs : gmap string Entry) (w : World) : World :=
  let config :=
    {| compendiums := _selectedCompendiums;
       items := (λ itemConfig,
                  {| availability := Some (availability_or_unlimited (availability itemConfig));
                     quantity := or_else (quantity itemConfig) (int 1);
                     customPrice := customPrice itemConfig;
                     currentStock := currentStock itemConfig ?? quantity itemConfig ?? Null |})
                <$> _itemConfigs |} in
  setShopConfig config w.

End ShopManager.

(** ** The authoritative session as a transition system

    The GM's session holds the world and the draft of the admin form
    ([ShopManager._itemConfigs]). Each operation the GM's session can run
    is one [Op]; requests of players arrive as [OpPurchase] and
    [OpReserve]. The operations of a run take place one after the other.
    [OpLoadConfig] is the reading of the stored entries into the draft,
    which the program does once, when the form is created; a run may
    contain it any number of times, so the states of the runs include
    those the program reaches through these operations. *)

Module System.

Record State : Type := {
  game : World;
  _itemConfigs : gmap string Entry
}.

Inductive Op : Type :=
| OpPurchase (id timestamp actorId itemUuid : string)
| OpReserve (timestamp id timestamp' actorId itemUuid : string)
| OpUpdateStock (itemUuid : string) (newStock : value)
| OpToggleShop
| OpClearItemReservations (itemUuid : string)
| OpDeleteLogEntry (entryId : string)
| OpClearLog
| OpLoadConfig
| OpAvailabilityChange (uuid value : string)
| OpQuantityChange (uuid : string) (parsed : number)
| OpCustomPriceChange (uuid : string) (parsed : option number)
| OpSaveConfig (selectedCompendiums : list string).

Definition on_game (f : World → World) (s : State) : State :=
  {| game := f (game s); _itemConfigs := _itemConfigs s |}.

Definition on_draft (f : gmap string Entry → gmap string Entry) (s : State) : State :=
  {| game := game s; _itemConfigs := f (_itemConfigs s) |}.

Definition step (s : State) (op : Op) : State :=
  match op with
  | OpPurchase id t a i => on_game (λ w, (purchaseItem id t a i w).2) s
  | OpReserve t id t' a i => on_game (λ w, (reserveItem t id t' a i w).2) s
  | OpUpdateStock i v => on_game (updateStock i v) s
  | OpToggleShop => on_game (λ w, (toggleShop w).2) s
  | OpClearItemReservations i => on_game (clearItemReservations i) s
  | OpDeleteLogEntry e => on_game (deleteActivityLogEntry e) s
  | OpClearLog => on_game clearActivityLog s
  | OpLoadConfig => on_draft (λ _, ShopManager._loadConfig (game s)) s
  | OpAvailabilityChange u v => on_draft (ShopManager._onAvailabilityChange u v) s
  | OpQuantityChange u n => on_draft (ShopManager._onQuantityChange u n) s
  | OpCustomPriceChange u n => on_draft (ShopManager._onCustomPriceChange u n) s
  | OpSaveConfig cs => on_game (ShopManager._onSaveConfig cs (_itemConfigs s)) s
  end.

Definition run (ops : list Op) (s : State) : State := fold_left step ops s.

(** The state at first activation: the defaults of [registerSettings],
    an admin form not yet opened, and whatever actors, users and items the
    host has. *)
Definition initial (actors : gmap string Actor) (users : gmap string string)
    (catalog : gmap string Item) : State :=
  {| game := {| actors := actors; users := users; catalog := catalog;
                currencyName := "Ori"; shopOpen := false;
                shopConfig := {| compendiums := []; items := ∅ |};
                activityLog := []; reservations := ∅ |};
     _itemConfigs := ∅ |}.

End System.

(** ** Sample data for the scenarios *)

Module Demo.

Definition hero (gold : Z) : Actor :=
  {| actor_name := "Hero"; gp := int gold;
     ownership := Some [("default", 0); ("u1", 3)]; embedded := [] |}.

Definition mage : Actor :=
  {| actor_name := "Mage"; gp := int 5;
     ownership := Some [("default", 0); ("u2", 3)]; embedded := [] |}.

Definition sword : Item := {| item_name := "Sword"; price_value := int 30 |}.

(** An item without a base price. *)
Definition leaf : Item := {| item_name := "Leaf"; price_value := Undefined |}.

Definition entry (kind : string) (qty stock : value) : Entry :=
  {| availability := Some kind; quantity := qty;
     customPrice := Null; currentStock := stock |}.

(** An unlimited entry with a custom price. *)
Definition priced (p : Z) : Entry :=
  {| availability := Some "unlimited"; quantity := int 1;
     customPrice := int p; currentStock := Null |}.

(** A world with two characters and one catalogue item, the sword, whose
    shop entry is [e]; the hero owns [gold] pieces. *)
Definition shop (open : bool) (gold : Z) (e : Entry) : World :=
  {| actors := {[ "hero" := hero gold; "mage" := mage ]};
     users := {[ "u1" := "Ann"; "u2" := "Bob" ]};
     catalog := {[ "sword" := sword ]};
     currencyName := "Ori"; shopOpen := open;
     shopConfig := {| compendiums := ["pack"]; items := {[ "sword" := e ]} |};
     activityLog := []; reservations := ∅ |}.

Definition bought : LogData :=
  {| data_type := "purchase"; data_actorId := "hero"; data_actorName := "Hero";
     data_playerName := "Ann"; data_itemUuid := "sword"; data_itemName := "Sword";
     data_price := Some (int 30); data_currency := Some "Ori" |}.

Definition filler : LogEntry := stamp bought "f" "earlier".
Definition oldest : LogEntry := stamp bought "o" "long ago".

(** A log of 500 entries of which the last, [oldest], is the oldest. *)
Definition full_log : list LogEntry := repeat filler 499 ++ [oldest].

Definition player : User := {| user_id := "u1"; user_name := "Ann"; isGM := false |}.
Definition gm : User := {| user_id := "gm"; user_name := "GM"; isGM := true |}.

End Demo.

(** ** Notions used in the statements *)

(** A field is unset when it is [undefined], [null] or the empty string;
    a custom price counts as set when it is a number. *)
Definition custom_unset (v : value) : Prop :=
  v = Undefined ∨ v = Null ∨ v = EmptyStr.

(** A run of appends: each element is the [id] and [timestamp] the host
    produced and the entry the caller passed. *)
Definition appends (es : list (string * string * LogData)) (w : World) : World :=
  fold_left (λ w '(id, t, entry), addActivityLog id t entry w) es w.

Definition stamped (es : list (string * string * LogData)) : list LogEntry :=
  (λ '(id, t, entry), stamp entry id t) <$> es.

(** Consecutive purchases of one item, each call with the [id] and
    [timestamp] the host produced and the buying actor; [None] as soon as one
    of them fails. *)
Fixpoint purchases (calls : list (string * string * string)) (itemUuid : string)
    (w : World) : option World :=
  match calls with
  | [] => Some w
  | (id, t, actorId) :: rest =>
      let '(r, w') := purchaseItem id t actorId itemUuid w in
      if success r then purchases rest itemUuid w' else None
  end.

(** The record [addReservation] pushes. *)
Definition reservation_of (timestamp actorId actorName playerName : string) : Reservation :=
  {| res_actorId := actorId; res_actorName := actorName;
     res_playerName := playerName; res_timestamp := timestamp |}.

(** Actor [a] holds a reservation for item [i]. *)
Definition reserved (a i : string) (w : World) : Prop :=
  ∃ l r, reservations w !! i = Some l ∧ r ∈ l ∧ res_actorId r = a.

(** No list of reservations names an actor twice. *)
Definition one_per_actor (w : World) : Prop :=
  ∀ i l, reservations w !! i = Some l → NoDup (res_actorId <$> l).

(** Reservation calls run one after the other, whatever their results:
    each element is the two timestamps and the id the host produced, the actor
    and the item. *)
Definition reserve_calls (calls : list (string * string * string * string * string))
    (w : World) : World :=
  fold_left (λ w '(t, id, t', a, i), (reserveItem t id t' a i w).2) calls w.

(** ** socket-handler.js: the callback registry

    [SocketHandler._callbacks] maps an event name to the callbacks
    registered for it. A callback is a function object: [cb_id] stands for
    its identity (what [indexOf] compares) and [cb_run] for what a call does
    to the state [S] of the session it runs in; a call either returns or
    throws, in both cases leaving a state behind. Callbacks are taken not to
    register or remove callbacks themselves. *)

Module SocketRegistry.

Section Registry.

Context {S : Type}.

Inductive Completion : Type :=
| Returned (s : S)
| Threw (s : S).

Record Callback : Type := {
  cb_id : nat;
  cb_run : Payload → S → Completion
}.

(** [callbacks.indexOf(callback)] *)
Fixpoint indexOf (callback : Callback) (callbacks : list Callback) : option nat :=
  match callbacks with
  | [] => None
  | c :: rest =>
      if Nat.eqb (cb_id c) (cb_id callback) then Some 0%nat
      else Nat.succ <$> indexOf callback rest
  end.

(** [this._callbacks.get(event) || []] *)
Definition callbacks_for (event : string) (_callbacks : gmap string (list Callback))
  : list Callback :=
  default [] (_callbacks !! event).

Definition on (event : string) (callback : Callback)
    (_callbacks : gmap string (list Callback)) : gmap string (list Callback) :=
  let _callbacks :=
    match _callbacks !! event with
    | None => <[event := []]> _callbacks
    | Some _ => _callbacks
    end in
  alter (λ l, l ++ [callback]) event _callbacks.

Definition off (event : string) (callback : Callback)
    (_callbacks : gmap string (list Callback)) : gmap string (list Callback) :=
  let callbacks := callbacks_for event _callbacks in
  match indexOf callback callbacks with
  | Some index => alter (λ l, delete index l) event _callbacks
  | None => _callbacks
  end.

(** The loop of [_handleMessage]: each callback is called on the payload
    inside [try]; a throw is logged ([console.error]) and the loop goes on.
    The result is the state left behind and the ids of the callbacks that
    threw, in order. *)
Fixpoint run_callbacks (payload : Payload) (callbacks : list Callback) (s : S)
  : S * list nat :=
  match callbacks with
  | [] => (s, [])
  | c :: rest =>
      match cb_run c payload s with
      | Returned s' => run_callbacks payload rest s'
      | Threw s' =>
          let '(s'', errors) := run_callbacks payload rest s' in
          (s'', cb_id c :: errors)
      end
  end.

(** [_handleMessage(data)]: [data.event] is undefined on a request or a
    reply, and no callbacks are stored under it. *)
Definition _handleMessage (data : SocketData)
    (_callbacks : gmap string (list Callback)) (s : S) : S * list nat :=
  match data with
  | Event event payload _ => run_callbacks payload (callbacks_for event _callbacks) s
  | _ => (s, [])
  end.

(** [emit(event, payload)]: the object put on the channel, and the local
    callbacks triggered with [{ event, payload }]. *)
Definition emit (user : string) (event : string) (payload : Payload)
    (_callbacks : gmap string (list Callback)) (s : S) : SocketData * (S * list nat) :=
  (SocketHandler.emit user event payload,
   _handleMessage (Event event payload None) _callbacks s).

End Registry.

Arguments Completion : clear implicits.
Arguments Callback : clear implicits.

End SocketRegistry.

(** ** player-shop.js: the data of the shop window

    [game.packs] is a parameter: a pack has a label and the documents
    [getDocuments] yields, each with its uuid. The list of actors the user
    may act for, [MarketStore.getPlayerActors()], is a parameter as well, as
    the ids of these actors (it rests on the host's permission test). Of each
    actor the view keeps id, name and whether it is the selected one; of each
    item the view keeps what is
    computed; [img], [type] and [description] are copied from the document and
    left out here. *)

Module PlayerShopData.

Record Pack : Type := {
  pack_label : string;
  pack_documents : list (string * Item)
}.

Record ItemView : Type := {
  view_uuid : string;
  view_name : string;
  view_price : value;
  view_availability : option string;
  view_stock : value;
  view_isUnlimited : bool;
  view_isLimited : bool;
  view_isReservation : bool;
  view_canAfford : bool;
  view_isSoldOut : bool;
  view_hasReserved : bool;
  view_disabled : bool
}.

Record Category : Type := {
  cat_id : string;
  cat_name : string;
  cat_items : list ItemView;
  cat_active : bool
}.

Record Data : Type := {
  data_shopOpen : bool;
  data_currencyName : string;
  data_playerActors : list (string * string * bool);
  data_selectedActor : option (string * string);
  data_playerGold : value;
  data_categories : list Category;
  data_hasCategories : bool;
  data_isGM : bool;
  (* the fields of the window after the call *)
  data_selectedActorId : option string;
  data_activeCategory : option string
}.

(** [!id] for an id that is [null] or a string. *)
Definition unset (id : option string) : bool :=
  match id with
  | None => true
  | Some s => String.eqb s ""
  end.

(** [reservations[uuid]?.some(r => r.actorId === this._selectedActorId)],
    as the condition it is used for. *)
Definition hasReserved (_selectedActorId : option string) (uuid : string) (w : World) : bool :=
  match getReservations w !! uuid, _selectedActorId with
  | Some l, Some a => existsb (λ r, String.eqb (res_actorId r) a) l
  | _, _ => false
  end.

(** The body of the loop over the documents of a pack, for a configured
    item. *)
Definition item_view (_selectedActorId : option string) (playerGold : value)
    (uuid : string) (item : Item) (itemConfig : Entry) (w : World) : ItemView :=
  let shopOpen := isShopOpen w in
  let price := getItemPrice item (Some itemConfig) in
  let stock := getAvailableStock uuid w in
  let canAfford := ge playerGold price in
  let isSoldOut := is_availability AVAILABILITY_TYPES.LIMITED itemConfig
                   && le stock (int 0) in
  let hasReserved := hasReserved _selectedActorId uuid w in
  {| view_uuid := uuid; view_name := item_name item; view_price := price;
     view_availability := availability itemConfig; view_stock := stock;
     view_isUnlimited := is_availability AVAILABILITY_TYPES.UNLIMITED itemConfig;
     view_isLimited := is_availability AVAILABILITY_TYPES.LIMITED itemConfig;
     view_isReservation := is_availability AVAILABILITY_TYPES.RESERVATION itemConfig;
     view_canAfford := canAfford; view_isSoldOut := isSoldOut;
     view_hasReserved := hasReserved;
     view_disabled :=
       negb shopOpen || isSoldOut
       || (negb canAfford
           && negb (is_availability AVAILABILITY_TYPES.RESERVATION itemConfig))
       || hasReserved |}.

(** The inner loop: unconfigured items are skipped. *)
Definition category_items (_selectedActorId : option string) (playerGold : value)
    (documents : list (string * Item)) (w : World) : list ItemView :=
  omap (λ '(uuid, item),
          match items (getShopConfig w) !! uuid with
          | None => None
          | Some itemConfig =>
              Some (item_view _selectedActorId playerGold uuid item itemConfig w)
          end) documents.

(** The outer loop over [config.compendiums]: a compendium without pack is
    skipped, and so is one without visible items. *)
Fixpoint build_categories (packs : gmap string Pack) (_selectedActorId : option string)
    (playerGold : value) (_activeCategory : option string)
    (compendiums : list string) (categories : list Category) (w : World)
  : list Category :=
  match compendiums with
  | [] => categories
  | compId :: rest =>
      let categories :=
        match packs !! compId with
        | None => categories
        | Some pack =>
            let categoryItems :=
              category_items _selectedActorId playerGold (pack_documents pack) w in
            if Nat.ltb 0 (length categoryItems) then
              categories ++
                [ {| cat_id := compId; cat_name := pack_label pack;
                     cat_items := categoryItems;
                     cat_active :=
                       from_option (String.eqb compId) false _activeCategory
                       || (unset _activeCategory
                           && Nat.eqb (length categories) 0) |} ]
            else categories
        end in
      build_categories packs _selectedActorId playerGold _activeCategory rest categories w
  end.

(** [categories[0].active = true] *)
Definition activate_first (categories : list Category) : list Category :=
  match categories with
  | [] => []
  | c :: rest =>
      {| cat_id := cat_id c; cat_name := cat_name c; cat_items := cat_items c;
         cat_active := true |} :: rest
  end.

Definition getData (user : User) (packs : gmap string Pack) (playerActors : list string)
    (_selectedActorId _activeCategory : option string) (w : World) : Data :=
  let shopOpen := isShopOpen w in
  let currencyName := getCurrencyName w in
  let config := getShopConfig w in
  (* auto-select the first actor if none is selected *)
  let _selectedActorId :=
    if unset _selectedActorId && Nat.ltb 0 (length playerActors)
    then head playerActors else _selectedActorId in
  let selectedActor := _selectedActorId ≫= (λ a, actors w !! a) in
  let playerGold := or_else (from_option gp Undefined selectedActor) (int 0) in
  let categories :=
    build_categories packs _selectedActorId playerGold _activeCategory
      (compendiums config) [] w in
  (* set the active category if not set *)
  let first := unset _activeCategory && Nat.ltb 0 (length categories) in
  let categories := if first then activate_first categories else categories in
  let _activeCategory :=
    if first then cat_id <$> head categories else _activeCategory in
  {| data_shopOpen := shopOpen; data_currencyName := currencyName;
     data_playerActors :=
       omap (λ a, (λ actor, (a, actor_name actor,
                             from_option (String.eqb a) false _selectedActorId))
                  <$> actors w !! a) playerActors;
     data_selectedActor :=
       _selectedActorId ≫= (λ a, (λ actor, (a, actor_name actor)) <$> actors w !! a);
     data_playerGold := playerGold; data_categories := categories;
     data_hasCategories := Nat.ltb 0 (length categories);
     data_isGM := isGM user;
     data_selectedActorId := _selectedActorId;
     data_activeCategory := _activeCategory |}.

End PlayerShopData.

(** ** shop-manager.js: the other handlers of the admin form

    [_selectedCompendiums] is a JavaScript [Set]: here the list of its
    members in insertion order, which is what [Array.from] yields. *)

Module ShopManagerForm.

(** [set.add(compId)] and [set.delete(compId)] *)
Definition set_add (compId : string) (set : list string) : list string :=
  if bool_decide (compId ∈ set) then set else set ++ [compId].

Definition set_delete (compId : string) (set : list string) : list string :=
  filter (λ c, c ≠ compId) set.

(** [new Set(config.compendiums || [])] *)
Definition set_of_list (l : list string) : list string :=
  fold_left (λ set c, set_add c set) l [].

Definition _onCompendiumToggle (compId : string) (checked : bool)
    (_selectedCompendiums : list string) : list string :=
  if checked then set_add compId _selectedCompendiums
  else set_delete compId _selectedCompendiums.

(** The form object, with the two fields that [_loadConfig] fills. *)
Record Form : Type := {
  _selectedCompendiums : list string;
  _itemConfigs : gmap string Entry
}.

(** The constructor: it ends with [_loadConfig], which copies the stored
    configuration into the fields. Nothing else calls [_loadConfig]. *)
Definition constructor (w : World) : Form :=
  {| _selectedCompendiums := set_of_list (compendiums (getShopConfig w));
     _itemConfigs := ShopManager._loadConfig w |}.

(** [getInstance]: [_instance] is the static field, [None] for [null]. The
    result is the form and the static field after the call; [open] renders
    that form. *)
Definition getInstance (_instance : option Form) (w : World) : Form * option Form :=
  match _instance with
  | Some form => (form, Some form)
  | None => let form := constructor w in (form, Some form)
  end.

(** The quantity field and the Save button of a form. Saving closes the
    window and leaves the instance and its fields in place. *)
Definition _onQuantityChange (uuid : string) (parsed : number) (form : Form) : Form :=
  {| _selectedCompendiums := _selectedCompendiums form;
     _itemConfigs := ShopManager._onQuantityChange uuid parsed (_itemConfigs form) |}.

Definition _onSaveConfig (form : Form) (w : World) : World :=
  ShopManager._onSaveConfig (_selectedCompendiums form) (_itemConfigs form) w.

End ShopManagerForm.

(** ** Further notions used in the statements *)

Definition is_toggle (op : System.Op) : bool :=
  match op with
  | System.OpToggleShop => true
  | _ => false
  end.

Definition is_reply (data : SocketData) : bool :=
  match data with
  | Reply _ _ _ => true
  | _ => false
  end.

(** The item has a shop entry. *)
Definition configured (w : World) (uuid : string) : bool :=
  bool_decide (is_Some (items (getShopConfig w) !! uuid)).

(** The compendium has a pack, and the pack a document with a shop entry. *)
Definition has_visible_items (packs : gmap string PlayerShopData.Pack) (w : World)
    (compId : string) : bool :=
  match packs !! compId with
  | Some pack => existsb (λ d, configured w d.1) (PlayerShopData.pack_documents pack)
  | None => false
  end.

(** The entry [_onSaveConfig] writes for a draft entry. *)
Definition saved_entry (itemConfig : Entry) : Entry :=
  {| availability := Some (ShopManager.availability_or_unlimited (availability itemConfig));
     quantity := or_else (quantity itemConfig) (int 1);
     customPrice := customPrice itemConfig;
     currentStock := currentStock itemConfig ?? quantity itemConfig ?? Null |}.

(** More sample data. *)
Module Scenario.

Definition reserved_by_hero : World :=
  (reserveItem "t" "id" "t'" "hero" "sword"
     (Demo.shop true 10 (Demo.entry "reservation" (int 1) Null))).2.

Definition pack : PlayerShopData.Pack :=
  {| PlayerShopData.pack_label := "Weapons";
     PlayerShopData.pack_documents := [("sword", Demo.sword); ("axe", Demo.leaf)] |}.

Definition log3 : list LogEntry :=
  [stamp Demo.bought "c" "t3"; stamp Demo.bought "b" "t2"; stamp Demo.bought "a" "t1"].

Definition counter (n : nat) : SocketRegistry.Callback nat :=
  {| SocketRegistry.cb_id := n;
     SocketRegistry.cb_run := λ _ s, SocketRegistry.Returned (s + n)%nat |}.

Definition thrower (n : nat) : SocketRegistry.Callback nat :=
  {| SocketRegistry.cb_id := n;
     SocketRegistry.cb_run := λ _ s, SocketRegistry.Threw s |}.

Definition packs : gmap string PlayerShopData.Pack := {[ "pack" := pack ]}.

Definition world : World := Demo.shop true 100 (Demo.entry "limited" (int 3) Null).

(** The shop window of Ann, who may act for the hero. *)
Definition window : PlayerShopData.Data :=
  PlayerShopData.getData Demo.player packs ["hero"] None None world.

Definition sword_view : PlayerShopData.ItemView :=
  PlayerShopData.item_view (Some "hero") (int 100) "sword" Demo.sword
    (Demo.entry "limited" (int 3) Null) world.

Definition weapons : PlayerShopData.Category :=
  {| PlayerShopData.cat_id := "pack"; PlayerShopData.cat_name := "Weapons";
     PlayerShopData.cat_items := [sword_view]; PlayerShopData.cat_active := true |}.

End Scenario.

(** ** Doubles that stand for integers *)

(** The safe integers: those of magnitude below 2^53. Each of them is a
    double, written with a mantissa of 53 binary digits. *)
Definition safe (z : Z) : Prop := Z.abs z < 2 ^ 53.

(** The mantissa and the exponent of the double that is the positive safe
    integer [p], and that double in the representation of the
    specification of the arithmetic. *)
Definition canon_e (p : positive) : Z := Zpos (digits2_pos p) - prec.

Definition canon_m (p : positive) : positive :=
  Pos.shiftl p (Z.to_N (prec - Zpos (digits2_pos p))).

Definition canon (z : Z) : spec_float :=
  match z with
  | 0 => S754_zero false
  | Zpos p => S754_finite false (canon_m p) (canon_e p)
  | Zneg p => S754_finite true (canon_m p) (canon_e p)
  end.

(** * Properties *)

(** ** Auxiliary facts *)

(** A property that every operation preserves holds after every run. *)
Lemma run_invariant (P : System.State → Prop) :
  (∀ s op, P s → P (System.step s op)) →
  ∀ ops s, P s → P (System.run ops s).
Proof.
  intros Hstep ops. unfold System.run.
  induction ops as [|op ops IH]; intros s Hs; [done|].
  simpl. apply IH, Hstep, Hs.
Qed.

(** On a log within the bound, an append keeps the first 500 entries of
    the extended list. *)
Lemma log_push_take (e : LogEntry) (log : list LogEntry) :
  (length log ≤ 500)%nat → log_push e log = take 500 (e :: log).
Proof.
  intros Hlen. unfold log_push.
  destruct (Nat.ltb_spec 500 (length (e :: log))) as [Hgt | Hle].
  - assert (length (e :: log) = 501%nat) as Hn by (simpl in *; lia).
    destruct (exists_last (l := e :: log)) as (l' & x & Heq); [done|].
    rewrite Heq. rewrite removelast_last.
    rewrite Heq, length_app in Hn. simpl in Hn.
    rewrite take_app_le by lia. rewrite take_ge by lia. reflexivity.
  - rewrite take_ge by lia. reflexivity.
Qed.

Lemma log_push_length (e : LogEntry) (log : list LogEntry) :
  (length log ≤ 500)%nat → (length (log_push e log) ≤ 500)%nat.
Proof.
  intros Hlen. rewrite log_push_take by done. rewrite length_take. lia.
Qed.

Lemma take_app_take {A} (n m : nat) (pre l : list A) :
  (n ≤ m)%nat → take n (pre ++ take m l) = take n (pre ++ l).
Proof.
  revert n. induction pre as [|a pre IH]; intros n Hnm.
  - rewrite !app_nil_l, take_take. f_equal. lia.
  - destruct n as [|n]; [reflexivity|].
    rewrite <- !app_comm_cons. rewrite !firstn_cons.
    f_equal. apply IH. lia.
Qed.

Lemma remove_first_length (entryId : string) (log : list LogEntry) :
  (length (remove_first entryId log) ≤ length log)%nat.
Proof.
  induction log as [|e log IH]; simpl; [done|].
  destruct (String.eqb (log_id e) entryId); simpl; lia.
Qed.

Lemma is_limited_eq (e : Entry) :
  availability e = Some AVAILABILITY_TYPES.LIMITED →
  is_availability AVAILABILITY_TYPES.LIMITED e = true
  ∧ is_availability AVAILABILITY_TYPES.UNLIMITED e = false.
Proof. unfold is_availability. intros ->. done. Qed.

(** *** Doubles and safe integers

    The arithmetic of the doubles is given by its specification
    ([SFsub], [SFleb], [binary_normalize]); on safe integers it is the
    arithmetic of the integers. *)

Lemma iter_pos_iter {A : Type} (f : A → A) (n : positive) (x : A) :
  SpecFloat.iter_pos f n x = Pos.iter f x n.
Proof.
  revert x. induction n as [n IH|n IH|]; intros x; simpl.
  - rewrite !IH. rewrite <- Pos.iter_swap. rewrite <- Pos.iter_swap. reflexivity.
  - rewrite !IH. reflexivity.
  - reflexivity.
Qed.

(** Appending [n] zero bits adds [n] binary digits and multiplies by
    [2 ^ n]; shifting right by [n] takes them off again, exactly. *)
Lemma digits2_pos_iter (p n : positive) :
  digits2_pos (Pos.iter xO p n) = (digits2_pos p + n)%positive.
Proof.
  induction n as [|n IH] using Pos.peano_ind.
  - simpl. lia.
  - rewrite Pos.iter_succ. simpl. rewrite IH. lia.
Qed.

Lemma Zpos_iter (p n : positive) :
  Zpos (Pos.iter xO p n) = Zpos p * 2 ^ Zpos n.
Proof.
  induction n as [|n IH] using Pos.peano_ind.
  - simpl. lia.
  - rewrite Pos.iter_succ, Pos2Z.inj_succ, Z.pow_succ_r by lia.
    rewrite (Pos2Z.inj_xO (Pos.iter xO p n)), IH. lia.
Qed.

Lemma shr_iter (m n : positive) :
  Pos.iter shr_1 {| shr_m := Zpos (Pos.iter xO m n); shr_r := false; shr_s := false |} n
  = {| shr_m := Zpos m; shr_r := false; shr_s := false |}.
Proof.
  revert m. induction n as [|n IH] using Pos.peano_ind; intros m.
  - reflexivity.
  - rewrite Pos.iter_succ_r. rewrite Pos.iter_succ. simpl. apply IH.
Qed.

(** A positive number of [d] binary digits lies between [2 ^ (d - 1)] and
    [2 ^ d]. *)
Lemma digits2_pos_bounds (p : positive) :
  2 ^ (Zpos (digits2_pos p) - 1) <= Zpos p < 2 ^ Zpos (digits2_pos p).
Proof.
  induction p as [p IH|p IH|]; simpl digits2_pos.
  - assert (2 ^ Zpos (digits2_pos p) = 2 * 2 ^ (Zpos (digits2_pos p) - 1)) as E
      by (rewrite <- Z.pow_succ_r by lia; f_equal; lia).
    rewrite Pos2Z.inj_succ.
    replace (Z.succ (Zpos (digits2_pos p)) - 1) with (Zpos (digits2_pos p)) by lia.
    rewrite Z.pow_succ_r by lia. lia.
  - assert (2 ^ Zpos (digits2_pos p) = 2 * 2 ^ (Zpos (digits2_pos p) - 1)) as E
      by (rewrite <- Z.pow_succ_r by lia; f_equal; lia).
    rewrite Pos2Z.inj_succ.
    replace (Z.succ (Zpos (digits2_pos p)) - 1) with (Zpos (digits2_pos p)) by lia.
    rewrite Z.pow_succ_r by lia. lia.
  - simpl. lia.
Qed.

(** Rounding leaves a mantissa of the right length as it is, and takes
    the zero bits appended to one off. *)
Lemma round_aux_canonical s m e :
  canonical_mantissa prec emax m e = true → e <= emax - prec →
  binary_round_aux prec emax s (Zpos m) e loc_Exact = S754_finite s m e.
Proof.
  intros Hc He. unfold canonical_mantissa in Hc. apply Z.eqb_eq in Hc.
  unfold binary_round_aux, shr_fexp. cbn [Zdigits2]. rewrite Hc, Z.sub_diag.
  cbn [shr shr_record_of_loc shr_m loc_of_shr_record round_nearest_even Zdigits2].
  rewrite Hc, Z.sub_diag. cbn [shr shr_m].
  apply Z.leb_le in He. rewrite He. reflexivity.
Qed.

Lemma round_aux_shift s m n e :
  canonical_mantissa prec emax m (e + Zpos n) = true → e + Zpos n <= emax - prec →
  binary_round_aux prec emax s (Zpos (Pos.iter xO m n)) e loc_Exact
  = S754_finite s m (e + Zpos n).
Proof.
  intros Hc He. unfold canonical_mantissa in Hc. apply Z.eqb_eq in Hc.
  unfold binary_round_aux, shr_fexp. cbn [Zdigits2].
  rewrite digits2_pos_iter, Pos2Z.inj_add.
  replace (Zpos (digits2_pos m) + Zpos n + e) with (Zpos (digits2_pos m) + (e + Zpos n)) by lia.
  rewrite Hc. replace (e + Zpos n - e) with (Zpos n) by lia.
  cbn [shr shr_record_of_loc]. rewrite iter_pos_iter, shr_iter.
  cbn [shr_m loc_of_shr_record round_nearest_even Zdigits2].
  rewrite Hc, Z.sub_diag. cbn [shr shr_m].
  apply Z.leb_le in He. rewrite He. reflexivity.
Qed.

Lemma prec_val : prec = 53. Proof. reflexivity. Qed.
Lemma emax_val : emax = 1024. Proof. reflexivity. Qed.

Lemma digits_small (p : positive) : Zpos p < 2 ^ 53 → Zpos (digits2_pos p) <= 53.
Proof.
  intros H. destruct (digits2_pos_bounds p) as [Hl _].
  destruct (Z_le_gt_dec (Zpos (digits2_pos p)) 53) as [|Hg]; [assumption|].
  assert (2 ^ 53 <= 2 ^ (Zpos (digits2_pos p) - 1)) by (apply Z.pow_le_mono_r; lia).
  lia.
Qed.

Lemma digits2_pos_shiftl (p : positive) (n : N) :
  Zpos (digits2_pos (Pos.shiftl p n)) = Zpos (digits2_pos p) + Z.of_N n.
Proof.
  destruct n as [|n]; unfold Pos.shiftl; cbn [Z.of_N]; [lia|].
  rewrite digits2_pos_iter. lia.
Qed.

Lemma Zpos_shiftl (p : positive) (n : N) :
  Zpos (Pos.shiftl p n) = Zpos p * 2 ^ Z.of_N n.
Proof.
  destruct n as [|n]; unfold Pos.shiftl; cbn [Z.of_N]; [rewrite Z.pow_0_r; lia|].
  apply Zpos_iter.
Qed.

(** The mantissa [canon_m p] has 53 binary digits. *)
Lemma canon_canonical (p : positive) :
  Zpos p < 2 ^ 53 → canonical_mantissa prec emax (canon_m p) (canon_e p) = true.
Proof.
  intros H. apply digits_small in H.
  unfold canonical_mantissa, canon_m, canon_e. rewrite digits2_pos_shiftl.
  apply Z.eqb_eq. unfold fexp, emin. rewrite prec_val, emax_val.
  pose proof (Pos2Z.is_pos (digits2_pos p)). lia.
Qed.

(** A safe integer [p], written with [k] zero bits appended to the
    mantissa and the exponent [- k], rounds to the double [canon p]. *)
Lemma binary_round_exact s (p : positive) (k : N) :
  Zpos p < 2 ^ 53 → (Z.of_N k <= 52) →
  binary_round prec emax s (Pos.shiftl p k) (- Z.of_N k) = S754_finite s (canon_m p) (canon_e p).
Proof.
  intros Hp Hk. pose proof (canon_canonical p Hp) as Hc.
  pose proof (digits_small p Hp) as Hd.
  pose proof (Pos2Z.is_pos (digits2_pos p)) as Hd0.
  unfold binary_round.
  assert (Hf : fexp prec emax (Zpos (digits2_pos (Pos.shiftl p k)) + - Z.of_N k) = canon_e p).
  { rewrite digits2_pos_shiftl. unfold fexp, emin, canon_e. rewrite prec_val, emax_val. lia. }
  rewrite Hf. unfold shl_align.
  destruct (canon_e p - - Z.of_N k) as [|d|d] eqn:Hd'.
  - (* already aligned *)
    assert (canon_e p = - Z.of_N k) as He by lia.
    assert (Pos.shiftl p k = canon_m p) as ->.
    { unfold canon_m. f_equal. unfold canon_e in He. rewrite prec_val in *. lia. }
    rewrite <- He. apply round_aux_canonical; [assumption|].
    unfold canon_e. rewrite prec_val, emax_val. lia.
  - (* shift right *)
    assert (Pos.shiftl p k = Pos.iter xO (canon_m p) d) as ->.
    { unfold canon_m. unfold canon_e in Hd'. rewrite prec_val in *.
      assert (k = (Z.to_N (53 - Zpos (digits2_pos p)) + Npos d)%N) as -> by lia.
      generalize (Z.to_N (53 - Zpos (digits2_pos p))). intros [|a]; unfold Pos.shiftl.
      - reflexivity.
      - change (N.pos a + N.pos d)%N with (N.pos (a + d)).
        rewrite Pos.add_comm. apply Pos.iter_add. }
    replace (canon_e p) with (- Z.of_N k + Zpos d) by lia.
    apply round_aux_shift.
    + replace (- Z.of_N k + Zpos d) with (canon_e p) by lia. assumption.
    + unfold canon_e in Hd'. rewrite prec_val, emax_val in *. lia.
  - (* shift left *)
    assert (Pos.iter xO (Pos.shiftl p k) d = canon_m p) as ->.
    { unfold canon_m. unfold canon_e in Hd'. rewrite prec_val in *.
      assert (Z.to_N (53 - Zpos (digits2_pos p)) = (Npos d + k)%N) as -> by lia.
      destruct k as [|a]; unfold Pos.shiftl.
      - reflexivity.
      - change (N.pos d + N.pos a)%N with (N.pos (d + a)).
        symmetry. apply Pos.iter_add. }
    apply round_aux_canonical; [assumption|].
    unfold canon_e. rewrite prec_val, emax_val. lia.
Qed.

Lemma normalize_scaled (z : Z) (k : N) :
  safe z → Z.of_N k <= 52 →
  binary_normalize prec emax (z * 2 ^ Z.of_N k) (- Z.of_N k) false = canon z.
Proof.
  unfold safe. intros Hz Hk. destruct z as [|p|p].
  - reflexivity.
  - rewrite <- Zpos_shiftl. cbn [binary_normalize canon].
    apply binary_round_exact; [lia | assumption].
  - change (Z.neg p) with (- Zpos p). rewrite Z.mul_opp_l, <- Zpos_shiftl.
    cbn [binary_normalize canon Z.opp]. apply binary_round_exact; [lia | assumption].
Qed.

(** [Num z] is the double [canon z]: a safe integer is not rounded. *)
Lemma spec_canon (z : Z) : safe z → binary_normalize prec emax z 0 false = canon z.
Proof.
  intros Hz.
  rewrite <- (normalize_scaled z 0 Hz) by (simpl; lia).
  simpl. f_equal. lia.
Qed.

Lemma canon_e_range (p : positive) : Zpos p < 2 ^ 53 → -52 <= canon_e p <= 0.
Proof.
  intros Hp. pose proof (digits_small p Hp). pose proof (Pos2Z.is_pos (digits2_pos p)).
  unfold canon_e. rewrite prec_val. lia.
Qed.

Lemma canon_valid (z : Z) : safe z → valid_binary (canon z) = true.
Proof.
  unfold safe. intros Hz.
  assert (H : ∀ p, Zpos p < 2 ^ 53 → bounded prec emax (canon_m p) (canon_e p) = true).
  { intros p Hp. unfold bounded. rewrite canon_canonical by assumption.
    apply Z.leb_le. pose proof (canon_e_range p Hp). rewrite prec_val, emax_val. lia. }
  destruct z as [|p|p]; [reflexivity| |]; apply H; lia.
Qed.

Lemma Prim2SF_Num (z : Z) : safe z → Prim2SF (Num z) = canon z.
Proof.
  intros Hz. unfold Num. rewrite spec_canon by assumption.
  apply Prim2SF_SF2Prim, canon_valid, Hz.
Qed.

Lemma shl_align_fst (m : positive) (ex ez : Z) :
  ez <= ex → fst (shl_align m ex ez) = Pos.shiftl m (Z.to_N (ex - ez)).
Proof.
  intros H. unfold shl_align.
  destruct (ez - ex) as [|d|d] eqn:E; simpl.
  - replace (ex - ez) with 0 by lia. reflexivity.
  - lia.
  - replace (ex - ez) with (Zpos d) by lia. reflexivity.
Qed.

Lemma shiftl_shiftl (p : positive) (a b : N) :
  Pos.shiftl (Pos.shiftl p a) b = Pos.shiftl p (a + b).
Proof.
  destruct a as [|a], b as [|b]; unfold Pos.shiftl; try reflexivity.
  change (N.pos a + N.pos b)%N with (N.pos (a + b)).
  rewrite Pos.add_comm. symmetry. apply Pos.iter_add.
Qed.

(** The aligned mantissa of a safe integer. *)
Lemma canon_aligned (p : positive) (ez : Z) :
  Zpos p < 2 ^ 53 → -52 <= ez <= canon_e p →
  Zpos (fst (shl_align (canon_m p) (canon_e p) ez)) = Zpos p * 2 ^ (- ez).
Proof.
  intros Hp He. pose proof (digits_small p Hp) as Hd.
  rewrite shl_align_fst by lia. unfold canon_m. rewrite shiftl_shiftl, Zpos_shiftl.
  f_equal. f_equal. unfold canon_e in *. rewrite prec_val in *. lia.
Qed.

(** The specification of the subtraction, on safe integers. *)
Lemma SFsub_canon (a b : Z) :
  safe a → safe b → safe (a - b) →
  SFsub prec emax (canon a) (canon b) = canon (a - b).
Proof.
  unfold safe. intros Ha Hb Hab.
  assert (Hfin : ∀ (sa sb : bool) (pa pb : positive),
    Zpos pa < 2 ^ 53 → Zpos pb < 2 ^ 53 →
    safe (cond_Zopp sa (Zpos pa) - cond_Zopp sb (Zpos pb)) →
    SFsub prec emax (S754_finite sa (canon_m pa) (canon_e pa))
                    (S754_finite sb (canon_m pb) (canon_e pb))
    = canon (cond_Zopp sa (Zpos pa) - cond_Zopp sb (Zpos pb))).
  { intros sa sb pa pb Hpa Hpb Hs. cbn [SFsub].
    pose proof (canon_e_range pa Hpa). pose proof (canon_e_range pb Hpb).
    set (ez := Z.min (canon_e pa) (canon_e pb)).
    assert (-52 <= ez <= 0) by (unfold ez; lia).
    rewrite !canon_aligned by (unfold ez; lia).
    replace (cond_Zopp sa (Zpos pa * 2 ^ (- ez)) - cond_Zopp sb (Zpos pb * 2 ^ (- ez)))
      with ((cond_Zopp sa (Zpos pa) - cond_Zopp sb (Zpos pb)) * 2 ^ (- ez))
      by (destruct sa, sb; unfold cond_Zopp; ring).
    replace (- ez) with (Z.of_N (Z.to_N (- ez))) at 1 by lia.
    replace ez with (- Z.of_N (Z.to_N (- ez))) at 2 by lia.
    apply normalize_scaled; [assumption | lia]. }
  destruct a as [|pa|pa], b as [|pb|pb]; try reflexivity.
  - apply (Hfin false false pa pb); unfold safe, cond_Zopp; lia.
  - apply (Hfin false true pa pb); unfold safe, cond_Zopp; lia.
  - apply (Hfin true false pa pb); unfold safe, cond_Zopp; lia.
  - apply (Hfin true true pa pb); unfold safe, cond_Zopp; lia.
Qed.

(** Subtraction of safe integers with a safe difference is exact. *)
Lemma sub_Num (a b : Z) :
  safe a → safe b → safe (a - b) → PrimFloat.sub (Num a) (Num b) = Num (a - b).
Proof.
  intros Ha Hb Hab. apply Prim2SF_inj.
  rewrite sub_spec, !Prim2SF_Num by assumption. apply SFsub_canon; assumption.
Qed.

(** The comparison of a safe integer with 0 is that of the integers. *)
Lemma leb_Num_0 (z : Z) : safe z → PrimFloat.leb (Num z) (Num 0) = (z <=? 0).
Proof.
  intros Hz. rewrite leb_spec, !Prim2SF_Num by (assumption || (unfold safe; simpl; lia)).
  destruct z; reflexivity.
Qed.

(** Different safe integers are different doubles. *)
Lemma Num_inj (a b : Z) : safe a → safe b → Num a = Num b → a = b.
Proof.
  intros Ha Hb E. apply (f_equal Prim2SF) in E. rewrite !Prim2SF_Num in E by assumption.
  unfold safe in *.
  destruct a as [|pa|pa], b as [|pb|pb]; simpl in E; try discriminate; try reflexivity.
  all: injection E as Em Ee.
  all: assert (Zpos pa = Zpos pb); [|lia].
  all: pose proof (digits_small pa ltac:(lia)); pose proof (digits_small pb ltac:(lia)).
  all: apply (f_equal Zpos) in Em; unfold canon_m in Em; rewrite !Zpos_shiftl in Em.
  all: unfold canon_e in Ee; rewrite prec_val in *.
  all: assert (Zpos (digits2_pos pa) = Zpos (digits2_pos pb)) as Ed by lia.
  all: rewrite Ed in Em.
  all: apply Z.mul_reg_r in Em; [assumption|].
  all: apply Z.pow_nonzero; lia.
Qed.

Lemma shiftl_compare (x y : positive) (k : N) :
  Pos.compare_cont Eq (Pos.shiftl x k) (Pos.shiftl y k) = (x ?= y)%positive.
Proof.
  destruct k as [|n]; unfold Pos.shiftl; [reflexivity|].
  induction n as [|n IH] using Pos.peano_ind.
  - reflexivity.
  - rewrite !Pos.iter_succ. exact IH.
Qed.

(** The order of the doubles that stand for safe integers is the order of
    the integers. *)
Lemma canon_compare (pa pb : positive) :
  Zpos pa < 2 ^ 53 → Zpos pb < 2 ^ 53 →
  match canon_e pa ?= canon_e pb with
  | Lt => Lt
  | Gt => Gt
  | Eq => Pos.compare_cont Eq (canon_m pa) (canon_m pb)
  end = (Zpos pa ?= Zpos pb).
Proof.
  intros Ha Hb.
  pose proof (digits2_pos_bounds pa) as [Hal Hau].
  pose proof (digits2_pos_bounds pb) as [Hbl Hbu].
  pose proof (Pos2Z.is_pos (digits2_pos pa)).
  pose proof (Pos2Z.is_pos (digits2_pos pb)).
  unfold canon_e.
  destruct (Z.compare_spec (Zpos (digits2_pos pa) - prec) (Zpos (digits2_pos pb) - prec))
    as [E|E|E].
  - assert (Zpos (digits2_pos pa) = Zpos (digits2_pos pb)) as Ed by lia.
    change (Pos.compare_cont Eq (canon_m pa) (canon_m pb) = (pa ?= pb)%positive).
    unfold canon_m. rewrite Ed. apply shiftl_compare.
  - symmetry. apply Z.compare_lt_iff.
    assert (2 ^ Zpos (digits2_pos pa) <= 2 ^ (Zpos (digits2_pos pb) - 1))
      by (apply Z.pow_le_mono_r; lia).
    lia.
  - symmetry. apply Z.compare_gt_iff.
    assert (2 ^ Zpos (digits2_pos pb) <= 2 ^ (Zpos (digits2_pos pa) - 1))
      by (apply Z.pow_le_mono_r; lia).
    lia.
Qed.

Lemma SFcompare_canon (a b : Z) :
  safe a → safe b → SFcompare (canon a) (canon b) = Some (a ?= b).
Proof.
  unfold safe. intros Ha Hb.
  destruct a as [|pa|pa], b as [|pb|pb]; try reflexivity.
  - cbn [canon SFcompare]. f_equal. apply canon_compare; lia.
  - cbn [canon SFcompare]. f_equal.
    change (Z.neg pa ?= Z.neg pb) with (CompOpp (Zpos pa ?= Zpos pb)).
    rewrite <- (canon_compare pa pb) by lia.
    by destruct (canon_e pa ?= canon_e pb).
Qed.

(** The comparison of safe integers is that of the integers. *)
Lemma leb_Num (a b : Z) : safe a → safe b → PrimFloat.leb (Num a) (Num b) = (a <=? b).
Proof.
  intros Ha Hb. rewrite FloatAxioms.leb_spec, !Prim2SF_Num by assumption.
  unfold SFleb. rewrite SFcompare_canon by assumption.
  unfold Z.leb. by destruct (a ?= b).
Qed.

Lemma eqb_Num (a b : Z) : safe a → safe b → PrimFloat.eqb (Num a) (Num b) = (a =? b).
Proof.
  intros Ha Hb. rewrite FloatAxioms.eqb_spec, !Prim2SF_Num by assumption.
  unfold SFeqb. rewrite SFcompare_canon by assumption.
  destruct (Z.eqb_spec a b) as [->|Hne].
  - by rewrite Z.compare_refl.
  - destruct (Z.compare_spec a b); done.
Qed.

(** A safe integer is truthy unless it is 0. *)
Lemma truthy_int (g : Z) : safe g → truthy (int g) = negb (g =? 0).
Proof.
  intros Hg. unfold truthy, int, is_nan, is_zero.
  assert (safe 0) as H0 by (unfold safe; lia).
  change zero with (Num 0).
  rewrite !eqb_Num by done. by rewrite Z.eqb_refl.
Qed.

(** A purchase call that does not succeed returns the world it was given. *)
Lemma purchaseItem_failure (id t a i : string) (w : World) :
  success (purchaseItem id t a i w).1 = false → (purchaseItem id t a i w).2 = w.
Proof.
  unfold purchaseItem, getShopConfig.
  destruct (actors w !! a) as [actor|]; [|done].
  destruct (catalog w !! i) as [item|]; [|done].
  destruct (items (shopConfig w) !! i) as [e|]; [|done].
  destruct (is_availability AVAILABILITY_TYPES.LIMITED e
            && le (currentStock e ?? quantity e) (int 0)); [done|].
  by destruct (canAfford actor (getItemPrice item (Some e))).
Qed.

(** What a successful purchase did, field by field. *)
Lemma purchaseItem_success (id t a i : string) (w w' : World) (r : Result) :
  purchaseItem id t a i w = (r, w') → success r = true →
  ∃ actor item e,
    actors w !! a = Some actor ∧ catalog w !! i = Some item
    ∧ items (shopConfig w) !! i = Some e
    ∧ (is_availability AVAILABILITY_TYPES.LIMITED e
       && le (currentStock e ?? quantity e) (int 0) = false)
    ∧ canAfford actor (getItemPrice item (Some e)) = true
    ∧ actors w' !! a
      = Some {| actor_name := actor_name actor;
                gp := sub (gp actor) (getItemPrice item (Some e));
                ownership := ownership actor;
                embedded := embedded actor ++ [item] |}
    ∧ shopConfig w'
      = (if is_availability AVAILABILITY_TYPES.LIMITED e
         then set_currentStock i (sub (currentStock e ?? quantity e) (int 1)) (shopConfig w)
         else shopConfig w)
    ∧ newStock r
      = (if is_availability AVAILABILITY_TYPES.LIMITED e
         then sub (currentStock e ?? quantity e) (int 1)
         else Null)
    ∧ reservations w' = reservations w
    ∧ catalog w' = catalog w
    ∧ (length (activityLog w) ≤ 500 → length (activityLog w') ≤ 500)%nat.
Proof.
  unfold purchaseItem, getShopConfig.
  destruct (actors w !! a) as [actor|] eqn:Ha; [|by intros [= <- <-]].
  destruct (catalog w !! i) as [item|] eqn:Hi; [|by intros [= <- <-]].
  destruct (items (shopConfig w) !! i) as [e|] eqn:He; [|by intros [= <- <-]].
  destruct (is_availability AVAILABILITY_TYPES.LIMITED e
            && le (currentStock e ?? quantity e) (int 0)) eqn:Hso;
    [by intros [= <- <-]|].
  destruct (canAfford actor (getItemPrice item (Some e))) eqn:Haff;
    [|by intros [= <- <-]].
  cbv zeta. simpl negb. cbv iota.
  intros [= <- <-] _. exists actor, item, e.
  repeat (split; [done|]).
  destruct (is_availability AVAILABILITY_TYPES.LIMITED e) eqn:Hlim; simpl.
  - rewrite !lookup_alter_eq, Ha, He. simpl.
    repeat (split; [done|]). apply log_push_length.
  - rewrite !lookup_alter_eq, Ha. simpl.
    repeat (split; [done|]). apply log_push_length.
Qed.

Lemma purchaseItem_reservations (id t a i : string) (w : World) :
  reservations (purchaseItem id t a i w).2 = reservations w.
Proof.
  destruct (purchaseItem id t a i w) as [r w'] eqn:Hrun.
  destruct (success r) eqn:Hok.
  - by destruct (purchaseItem_success _ _ _ _ _ _ _ Hrun Hok)
      as (? & ? & ? & _ & _ & _ & _ & _ & _ & _ & _ & Hres & _).
  - pose proof (purchaseItem_failure id t a i w) as H.
    rewrite Hrun in H. simpl in *. by rewrite H.
Qed.

Lemma purchaseItem_log_bounded (id t a i : string) (w : World) :
  (length (activityLog w) ≤ 500)%nat →
  (length (activityLog (purchaseItem id t a i w).2) ≤ 500)%nat.
Proof.
  intros Hlen.
  destruct (purchaseItem id t a i w) as [r w'] eqn:Hrun.
  destruct (success r) eqn:Hok.
  - destruct (purchaseItem_success _ _ _ _ _ _ _ Hrun Hok)
      as (? & ? & ? & _ & _ & _ & _ & _ & _ & _ & _ & _ & _ & Hlog).
    by apply Hlog.
  - pose proof (purchaseItem_failure id t a i w) as H.
    rewrite Hrun in H. simpl in *. by rewrite H.
Qed.

(** [addReservation] as one insertion into the map. *)
Lemma addReservation_fields (t i a an pn : string) (w : World) :
  addReservation t i a an pn w
  = set_reservations
      (<[i := default [] (reservations w !! i) ++ [reservation_of t a an pn]]>
         (reservations w)) w.
Proof.
  unfold addReservation, getReservations, reservation_of.
  f_equal. apply map_eq. intros j.
  destruct (decide (i = j)) as [<-|Hne].
  - rewrite lookup_insert_eq, lookup_alter_eq.
    destruct (reservations w !! i) as [l|] eqn:E; simpl.
    + by rewrite E.
    + by rewrite lookup_insert_eq.
  - rewrite lookup_insert_ne, lookup_alter_ne by done.
    destruct (reservations w !! i); [done|]. by rewrite lookup_insert_ne.
Qed.

(** The [find] of [reserveItem] comes back empty exactly when no record of
    the list is the actor's. *)
Lemma find_actor_None (a : string) (l : list Reservation) :
  List.find (λ r, String.eqb (res_actorId r) a) l = None ↔ a ∉ res_actorId <$> l.
Proof.
  induction l as [|r l IH]; simpl.
  - split; [intros _ ?%elem_of_nil; done | done].
  - rewrite not_elem_of_cons.
    destruct (String.eqb_spec (res_actorId r) a) as [Heq | Hne].
    + split; [done | intros [? _]; congruence].
    + rewrite IH. split; [intros ?; split; [congruence | done] | by intros [_ ?]].
Qed.

Lemma reserved_find (a i : string) (w : World) :
  reserved a i w ↔
  is_Some (reservations w !! i ≫= List.find (λ r, String.eqb (res_actorId r) a)).
Proof.
  unfold reserved. split.
  - intros (l & r & -> & Hin & Ha). simpl.
    destruct (List.find _ l) eqn:E; [by eexists|].
    apply find_actor_None in E. exfalso. apply E.
    apply list_elem_of_fmap. eauto.
  - destruct (reservations w !! i) as [l|]; simpl; [|by intros [? ?]].
    intros [r Hr]. apply find_some in Hr as [Hin Heq].
    apply String.eqb_eq in Heq. exists l, r.
    split; [done|]. split; [by apply list_elem_of_In | done].
Qed.

(** A reservation call that does not succeed changes nothing. *)
Lemma reserveItem_failure (t id t' a i : string) (w : World) :
  success (reserveItem t id t' a i w).1 = false → (reserveItem t id t' a i w).2 = w.
Proof.
  unfold reserveItem, getShopConfig, getReservations.
  destruct (actors w !! a); [|done]. destruct (catalog w !! i); [|done].
  destruct (items (shopConfig w) !! i) as [e|]; [|done].
  destruct (is_availability AVAILABILITY_TYPES.RESERVATION e); [|done].
  simpl. by destruct (reservations w !! i ≫= _).
Qed.

(** What a successful reservation call did. *)
Lemma reserveItem_success (t id t' a i : string) (w : World) :
  success (reserveItem t id t' a i w).1 = true →
  ∃ actor item e,
    actors w !! a = Some actor ∧ catalog w !! i = Some item
    ∧ items (shopConfig w) !! i = Some e
    ∧ is_availability AVAILABILITY_TYPES.RESERVATION e = true
    ∧ ¬ reserved a i w
    ∧ reservations (reserveItem t id t' a i w).2
      = <[i := default [] (reservations w !! i)
               ++ [reservation_of t a (actor_name actor) (reserve_playerName w actor)]]>
          (reservations w)
    ∧ actors (reserveItem t id t' a i w).2 = actors w
    ∧ catalog (reserveItem t id t' a i w).2 = catalog w
    ∧ shopConfig (reserveItem t id t' a i w).2 = shopConfig w
    ∧ (length (activityLog w) ≤ 500 →
       length (activityLog (reserveItem t id t' a i w).2) ≤ 500)%nat.
Proof.
  assert (reservations w !! i ≫= List.find (λ r, String.eqb (res_actorId r) a) = None
          → ¬ reserved a i w) as Hnot.
  { intros Hfind [x Hx]%reserved_find. congruence. }
  revert Hnot.
  unfold reserveItem, getShopConfig, getReservations.
  destruct (actors w !! a) as [actor|]; [|done].
  destruct (catalog w !! i) as [item|]; [|done].
  destruct (items (shopConfig w) !! i) as [e|]; [|done].
  destruct (is_availability AVAILABILITY_TYPES.RESERVATION e) eqn:Hav; [|done].
  simpl. destruct (reservations w !! i ≫= _) as [x|] eqn:Hfind; [done|].
  intros Hnot _. exists actor, item, e. repeat (split; [done|]).
  split; [by apply Hnot|]. cbn [snd].
  rewrite addReservation_fields. simpl.
  repeat (split; [done|]). apply log_push_length.
Qed.

(** A reservation call keeps what the other checks look at, and never
    removes a reservation. *)
Lemma reserveItem_keeps (t id t' b j : string) (w : World) :
  let w' := (reserveItem t id t' b j w).2 in
  actors w' = actors w ∧ catalog w' = catalog w ∧ shopConfig w' = shopConfig w
  ∧ ∀ a i, reserved a i w → reserved a i w'.
Proof.
  intros w'. subst w'.
  destruct (success (reserveItem t id t' b j w).1) eqn:Hok.
  - destruct (reserveItem_success _ _ _ _ _ _ Hok)
      as (actor & item & e & _ & _ & _ & _ & _ & Hres & Ha & Hc & Hs & _).
    repeat (split; [done|]).
    intros a i (l & r & Hl & Hin & Hr). unfold reserved. rewrite Hres.
    destruct (decide (j = i)) as [->|Hne].
    + rewrite lookup_insert_eq, Hl. simpl. eexists _, r.
      split; [done|]. split; [|done]. apply elem_of_app. by left.
    + rewrite lookup_insert_ne by done. eauto.
  - by rewrite reserveItem_failure.
Qed.

Lemma reserve_calls_keeps (calls : list (string * string * string * string * string))
    (w : World) :
  let w' := reserve_calls calls w in
  actors w' = actors w ∧ catalog w' = catalog w ∧ shopConfig w' = shopConfig w
  ∧ ∀ a i, reserved a i w → reserved a i w'.
Proof.
  revert w. induction calls as [|[[[[t id] t'] b] j] calls IH]; intros w; [done|].
  simpl. destruct (IH (reserveItem t id t' b j w).2) as (Ha & Hc & Hs & Hr).
  destruct (reserveItem_keeps t id t' b j w) as (Ha' & Hc' & Hs' & Hr').
  unfold reserve_calls in *. rewrite Ha, Hc, Hs.
  repeat (split; [done|]). intros a i H. by apply Hr, Hr'.
Qed.

(** An actor who holds a reservation for a reservable item is refused. *)
Lemma reserveItem_again (t id t' a i : string) (w : World) (actor : Actor)
    (item : Item) (e : Entry) :
  actors w !! a = Some actor → catalog w !! i = Some item →
  items (shopConfig w) !! i = Some e →
  is_availability AVAILABILITY_TYPES.RESERVATION e = true →
  reserved a i w →
  reserveItem t id t' a i w = (AlreadyReserved, w).
Proof.
  intros Ha Hi He Hav [x Hx]%reserved_find.
  unfold reserveItem, getShopConfig, getReservations.
  rewrite Ha, Hi, He, Hav. simpl. by rewrite Hx.
Qed.

Lemma reserveItem_log_bounded (t id t' a i : string) (w : World) :
  (length (activityLog w) ≤ 500)%nat →
  (length (activityLog (reserveItem t id t' a i w).2) ≤ 500)%nat.
Proof.
  intros Hlen.
  destruct (success (reserveItem t id t' a i w).1) eqn:Hok;
    [|by rewrite reserveItem_failure].
  destruct (reserveItem_success _ _ _ _ _ _ Hok)
    as (? & ? & ? & _ & _ & _ & _ & _ & _ & _ & _ & _ & Hlog).
  by apply Hlog.
Qed.

(** ** Failed purchases change nothing *)

(** C1. A purchase call that does not succeed stopped at one of the five
    checks of steps 1 to 6, returns the failure of that check, and leaves the
    whole world as it was: the actor's balance and inventory, the shop
    configuration with its stock, and the activity log. *)
Theorem purchaseItem_failure_no_mutation :
  ∀ (id timestamp actorId itemUuid : string) (w : World),
    success (purchaseItem id timestamp actorId itemUuid w).1 = false →
    (purchaseItem id timestamp actorId itemUuid w).2 = w
    ∧ let r := (purchaseItem id timestamp actorId itemUuid w).1 in
      match actors w !! actorId, catalog w !! itemUuid,
            items (shopConfig w) !! itemUuid with
      | None, _, _ => r = ActorNotFound
      | Some _, None, _ => r = ItemNotFound
      | Some _, Some _, None => r = ItemNotConfigured
      | Some actor, Some item, Some itemConfig =>
          (r = SoldOut
           ∧ availability itemConfig = Some AVAILABILITY_TYPES.LIMITED
           ∧ le (currentStock itemConfig ?? quantity itemConfig) (int 0) = true)
          ∨ (r = InsufficientFunds w
             ∧ canAfford actor (getItemPrice item (Some itemConfig)) = false)
      end.
Proof.
  intros id ts a i w. unfold purchaseItem, getShopConfig.
  destruct (actors w !! a) as [actor|]; [|done].
  destruct (catalog w !! i) as [item|]; [|done].
  destruct (items (shopConfig w) !! i) as [e|]; [|done].
  destruct (is_availability AVAILABILITY_TYPES.LIMITED e) eqn:Hlim; simpl.
  - destruct (le (currentStock e ?? quantity e) (int 0)) eqn:Hle; simpl.
    + intros _. split; [done|]. left. split; [done|]. split; [|done].
      unfold is_availability in Hlim.
      destruct (availability e) as [k|]; [|done].
      apply String.eqb_eq in Hlim. by subst.
    + destruct (canAfford actor (getItemPrice item (Some e))) eqn:Haff; simpl.
      * discriminate.
      * intros _. split; [done|]. by right.
  - destruct (canAfford actor (getItemPrice item (Some e))) eqn:Haff; simpl.
    + discriminate.
    + intros _. split; [done|]. by right.
Qed.

(** The scenario: balance 10, base price 30. The purchase fails with
    InsufficientFunds, the balance is still 10 and the log is still empty. *)
Lemma purchaseItem_failure_no_mutation_witness :
  let w := Demo.shop true 10 (Demo.entry "unlimited" (int 1) Null) in
  (purchaseItem "id" "now" "hero" "sword" w).2 = w
  ∧ (purchaseItem "id" "now" "hero" "sword" w).1 = InsufficientFunds w.
Proof.
  intros w.
  destruct (purchaseItem_failure_no_mutation "id" "now" "hero" "sword" w) as [H1 H2].
  - vm_compute. reflexivity.
  - split; [exact H1|]. vm_compute. reflexivity.
Defined.

(** ** Purchases of limited items *)

(** One successful purchase of a Limited item whose stock is [v]: the
    check found [v] not at most 0 and the call stored [v - 1]. *)
Lemma purchase_limited_step (id t a i : string) (w w' : World) (r : Result)
    (e : Entry) (v : value) :
  items (shopConfig w) !! i = Some e →
  availability e = Some AVAILABILITY_TYPES.LIMITED →
  currentStock e ?? quantity e = v →
  purchaseItem id t a i w = (r, w') → success r = true →
  le v (int 0) = false
  ∧ ∃ e', items (shopConfig w') !! i = Some e'
          ∧ availability e' = Some AVAILABILITY_TYPES.LIMITED
          ∧ currentStock e' ?? quantity e' = sub v (int 1)
          ∧ currentStock e' = sub v (int 1)
          ∧ newStock r = sub v (int 1).
Proof.
  intros He Hav HS Hrun Hok.
  destruct (purchaseItem_success _ _ _ _ _ _ _ Hrun Hok)
    as (actor & item & e0 & _ & _ & He0 & Hchk & _ & _ & Hcfg & Hnew & _).
  rewrite He in He0. injection He0 as <-.
  destruct (is_limited_eq e Hav) as [Hlim _].
  rewrite Hlim in Hcfg, Hnew, Hchk. rewrite HS in Hcfg, Hnew, Hchk.
  split; [exact Hchk|].
  eexists. rewrite Hcfg. simpl. rewrite lookup_alter_eq, He. simpl.
  split; [reflexivity|]. simpl. by rewrite Hnew.
Qed.

(** The available stock of a Limited entry. *)
Lemma getAvailableStock_limited (i : string) (w : World) (e : Entry) :
  items (shopConfig w) !! i = Some e →
  availability e = Some AVAILABILITY_TYPES.LIMITED →
  getAvailableStock i w = currentStock e ?? quantity e ?? int 0.
Proof.
  intros He Hav. unfold getAvailableStock, getShopConfig. rewrite He.
  by destruct (is_limited_eq e Hav) as [_ ->].
Qed.

(** C2, amended. For a Limited item whose stock (currentStock, else the
    initial quantity) is [v]: a successful purchase leaves as stock the
    double [v - 1] and as the buyer's balance the double
    [balance - price], the price being the effective price. On safe
    integers these are the integers [s - 1] and [g - p]. After [N]
    purchases that succeed one after the other the available stock is [v]
    with 1 subtracted [N] times (0 when no purchase was made and no stock
    is set), which is the integer [s - N] when [v] is the safe integer
    [s]. *)
Theorem purchase_limited_decrements :
  ∀ (i : string) (w : World) (e : Entry),
    items (shopConfig w) !! i = Some e →
    availability e = Some AVAILABILITY_TYPES.LIMITED →
    let v := currentStock e ?? quantity e in
    (∀ id t a r w',
        purchaseItem id t a i w = (r, w') → success r = true →
        getAvailableStock i w' = sub v (int 1)
        ∧ newStock r = sub v (int 1)
        ∧ ∃ actor item,
            actors w !! a = Some actor ∧ catalog w !! i = Some item
            ∧ gp <$> actors w' !! a
              = Some (sub (gp actor) (getItemPrice item (Some e)))
            ∧ ∀ g p, gp actor = int g → getItemPrice item (Some e) = int p →
                     safe g → safe p → safe (g - p) →
                     gp <$> actors w' !! a = Some (int (g - p)))
    ∧ (∀ calls w',
        purchases calls i w = Some w' →
        getAvailableStock i w'
        = Nat.iter (length calls) (λ x, sub x (int 1)) v ?? int 0)
    ∧ (∀ s calls w',
        v = int s → safe s → purchases calls i w = Some w' →
        getAvailableStock i w' = int (s - Z.of_nat (length calls))).
Proof.
  intros i w e He Hav v. split; [|split].
  - intros id t a r w' Hrun Hok.
    destruct (purchase_limited_step _ _ _ _ _ _ _ _ _ He Hav eq_refl Hrun Hok)
      as (_ & e' & He' & Hav' & HS' & _ & Hnew).
    split; [|split; [done|]].
    + rewrite (getAvailableStock_limited _ _ _ He' Hav'). fold v in HS'.
      unfold coalesce at 1. unfold coalesce in HS'.
      destruct (is_nullish (currentStock e')) eqn:Hn.
      * by rewrite HS'.
      * exact HS'.
    + destruct (purchaseItem_success _ _ _ _ _ _ _ Hrun Hok)
        as (actor & item & e0 & Ha & Hi & He0 & _ & _ & Hact & _).
      rewrite He in He0. injection He0 as <-.
      exists actor, item. rewrite Hact. simpl.
      repeat (split; [done|]). intros g p -> -> Hg Hp Hgp.
      unfold sub, int, num_sub. simpl. by rewrite sub_Num.
  - subst v. intros calls. revert w e He Hav.
    induction calls as [|[[id t] a] calls IH]; intros w e He Hav w' Hrun.
    + injection Hrun as <-. simpl. rewrite (getAvailableStock_limited _ _ _ He Hav).
      unfold coalesce. by destruct (currentStock e).
    + simpl in Hrun.
      destruct (purchaseItem id t a i w) as [r w1] eqn:Hstep.
      destruct (success r) eqn:Hok; [|done].
      destruct (purchase_limited_step _ _ _ _ _ _ _ _ _ He Hav eq_refl Hstep Hok)
        as (_ & e' & He' & Hav' & HS' & _).
      rewrite (IH w1 e' He' Hav' w' Hrun), HS'.
      rewrite length_cons, Nat.iter_succ_r. reflexivity.
  - subst v. intros s calls. revert w e s He Hav.
    induction calls as [|[[id t] a] calls IH]; intros w e s He Hav w' HS Hs Hrun.
    + injection Hrun as <-. rewrite (getAvailableStock_limited _ _ _ He Hav).
      rewrite Z.sub_0_r. unfold coalesce in *.
      destruct (currentStock e), (quantity e); simpl in *; done.
    + simpl in Hrun.
      destruct (purchaseItem id t a i w) as [r w1] eqn:Hstep.
      destruct (success r) eqn:Hok; [|done].
      destruct (purchase_limited_step _ _ _ _ _ _ _ _ _ He Hav HS Hstep Hok)
        as (Hpos & e' & He' & Hav' & HS' & _).
      unfold le, int, num_le in Hpos. simpl in Hpos.
      rewrite leb_Num_0 in Hpos by done. apply Z.leb_gt in Hpos.
      assert (safe 1) as H1 by (unfold safe; simpl; lia).
      assert (safe (s - 1)) as Hs1 by (unfold safe in *; lia).
      assert (sub (int s) (int 1) = int (s - 1)) as Hdec.
      { unfold sub, int, num_sub. simpl. by rewrite sub_Num. }
      rewrite Hdec in HS'.
      rewrite (IH w1 e' (s - 1) He' Hav' w' HS' Hs1 Hrun).
      rewrite length_cons. unfold int. do 2 f_equal. lia.
Qed.

(** A sword in stock 3 times: one purchase leaves 2 and costs the hero 30
    of 100 pieces; two purchases in a row leave 1. *)
Lemma purchase_limited_decrements_witness :
  let w := Demo.shop true 100 (Demo.entry "limited" (int 3) Null) in
  (getAvailableStock "sword" (purchaseItem "id" "now" "hero" "sword" w).2 = int 2
   ∧ newStock (purchaseItem "id" "now" "hero" "sword" w).1 = int 2
   ∧ gp <$> actors (purchaseItem "id" "now" "hero" "sword" w).2 !! "hero"
     = Some (int 70))
  ∧ ∀ w', purchases [("id1", "t1", "hero"); ("id2", "t2", "hero")] "sword" w = Some w' →
          getAvailableStock "sword" w' = int 1.
Proof.
  intros w.
  destruct (purchase_limited_decrements "sword" w
              (Demo.entry "limited" (int 3) Null)) as (Hone & _ & Hmany);
    [reflexivity | reflexivity |].
  split.
  - destruct (Hone "id" "now" "hero"
                (purchaseItem "id" "now" "hero" "sword" w).1
                (purchaseItem "id" "now" "hero" "sword" w).2)
      as (H1 & H2 & actor & item & Ha & Hi & _ & H3).
    + by destruct (purchaseItem "id" "now" "hero" "sword" w).
    + vm_compute. reflexivity.
    + split; [|split].
      * rewrite H1. vm_compute. reflexivity.
      * rewrite H2. vm_compute. reflexivity.
      * injection Ha as <-. injection Hi as <-.
        apply (H3 100 30); try reflexivity; unfold safe; lia.
  - intros w' Hrun.
    assert (safe 3) as Hs by (unfold safe; lia).
    exact (Hmany 3 [("id1", "t1", "hero"); ("id2", "t2", "hero")] w' eq_refl Hs Hrun).
Defined.

(** The decrement is the subtraction of doubles. The admin enters the
    quantity 9007199254740994 (2^53 + 2) for the sword and saves; the hero,
    with 100 pieces, buys one sword of base price 30. The stock left is
    9007199254740992, two below the stock before and not one: the
    difference 9007199254740993 is not a double and is rounded. With the
    custom price -1 and the balance 9007199254740992 the purchase leaves
    the balance as it was: the balance less the price, 9007199254740993,
    is rounded again. *)
Lemma purchase_decrement_rounded :
  let stocked :=
    System.game
      (System.run [System.OpAvailabilityChange "sword" "limited";
                   System.OpQuantityChange "sword" (Num 9007199254740994);
                   System.OpSaveConfig ["pack"]]
         (System.initial {[ "hero" := Demo.hero 100 ]} {[ "u1" := "Ann" ]}
            {[ "sword" := Demo.sword ]})) in
  let out := purchaseItem "id" "now" "hero" "sword" stocked in
  let cheap :=
    System.game
      (System.run [System.OpAvailabilityChange "sword" "limited";
                   System.OpQuantityChange "sword" (Num 3);
                   System.OpCustomPriceChange "sword" (Some (Num (-1)));
                   System.OpSaveConfig ["pack"]]
         (System.initial {[ "hero" := Demo.hero 9007199254740992 ]}
            {[ "u1" := "Ann" ]} {[ "sword" := Demo.sword ]})) in
  let out' := purchaseItem "id" "now" "hero" "sword" cheap in
  (getAvailableStock "sword" stocked = int 9007199254740994
   ∧ success out.1 = true
   ∧ getAvailableStock "sword" out.2 = int 9007199254740992
   ∧ newStock out.1 = int 9007199254740992
   ∧ Prim2SF (Num 9007199254740994) = S754_finite false 4503599627370497 1
   ∧ Prim2SF (Num 9007199254740992) = S754_finite false 4503599627370496 1)
  ∧ (getItemPrice Demo.sword (getItemConfig "sword" cheap) = int (-1)
     ∧ success out'.1 = true
     ∧ gp <$> actors cheap !! "hero" = Some (int 9007199254740992)
     ∧ gp <$> actors out'.2 !! "hero" = Some (int 9007199254740992)).
Proof. vm_compute. repeat split; reflexivity. Qed.

(** ** The sold-out check *)

(** When the stock of a Limited entry is set (currentStock or, failing
    that, the quantity is not [undefined]), the purchase fails as sold out
    exactly when the available stock is at most 0. *)
Lemma purchaseItem_SoldOut_iff (id t a i : string) (w : World)
    (actor : Actor) (item : Item) (e : Entry) :
  actors w !! a = Some actor → catalog w !! i = Some item →
  items (shopConfig w) !! i = Some e →
  availability e = Some AVAILABILITY_TYPES.LIMITED →
  currentStock e ?? quantity e ≠ Undefined →
  (purchaseItem id t a i w).1 = SoldOut
  ↔ le (getAvailableStock i w) (int 0) = true.
Proof.
  intros Ha Hi He Hav Hset.
  destruct (is_limited_eq e Hav) as [Hlim Hunl].
  unfold purchaseItem, getAvailableStock, getShopConfig.
  rewrite Ha, Hi, He, Hlim, Hunl. simpl.
  assert (le (currentStock e ?? quantity e ?? int 0) (int 0)
          = le (currentStock e ?? quantity e) (int 0)) as ->.
  { unfold coalesce in *. destruct (currentStock e), (quantity e); done. }
  destruct (le (currentStock e ?? quantity e) (int 0)); simpl.
  - done.
  - destruct (canAfford actor (getItemPrice item (Some e))); simpl; split; done.
Qed.

(** Entries written by the admin form always carry a quantity that is a
    number, and neither transaction nor the stock override touches it. *)
Lemma step_quantity_number (s : System.State) (op : System.Op) :
  (∀ i e, items (shopConfig (System.game s)) !! i = Some e → ∃ n, quantity e = VNum n) →
  ∀ i e, items (shopConfig (System.game (System.step s op))) !! i = Some e →
         ∃ n, quantity e = VNum n.
Proof.
  intros Hinv. destruct op; simpl; try exact Hinv.
  - destruct (purchaseItem id timestamp actorId itemUuid (System.game s))
      as [r w'] eqn:Hrun.
    destruct (success r) eqn:Hok.
    + destruct (purchaseItem_success _ _ _ _ _ _ _ Hrun Hok)
        as (actor & item & e0 & _ & _ & He0 & _ & _ & _ & Hcfg & _).
      simpl. rewrite Hcfg.
      destruct (is_availability AVAILABILITY_TYPES.LIMITED e0); [|done].
      intros i e. simpl. destruct (decide (itemUuid = i)) as [<-|Hne].
      * rewrite lookup_alter_eq, He0. intros [= <-]. simpl. by eapply Hinv.
      * rewrite lookup_alter_ne by done. apply Hinv.
    + pose proof (purchaseItem_failure id timestamp actorId itemUuid (System.game s)) as H.
      rewrite Hrun in H. simpl in *. by rewrite H.
  - by destruct (reserveItem_keeps timestamp id timestamp' actorId itemUuid (System.game s))
      as (_ & _ & -> & _).
  - unfold updateStock, getShopConfig.
    destruct (items (shopConfig (System.game s)) !! itemUuid) as [e0|] eqn:He0; [|done].
    intros i e. simpl. destruct (decide (itemUuid = i)) as [<-|Hne].
    + rewrite lookup_alter_eq, He0. intros [= <-]. simpl. by eapply Hinv.
    + rewrite lookup_alter_ne by done. apply Hinv.
  - intros i e. rewrite lookup_fmap.
    destruct (System._itemConfigs s !! i) as [d|]; simpl; [|done].
    intros [= <-]. simpl. unfold or_else, int.
    destruct (quantity d) as [| | |n]; simpl; eauto.
    destruct (is_nan n || is_zero n); simpl; eauto.
Qed.

(** In the states the session reaches from the initial one every stored
    entry has a quantity that is a number. The draft of the admin form may
    be loaded at any time in [System], which the form does once only, so
    these states include all that the program reaches through the form and
    the engine. *)
Lemma reachable_quantity_number (ops : list System.Op)
    (A : gmap string Actor) (U : gmap string string) (C : gmap string Item)
    (i : string) (e : Entry) :
  items (shopConfig (System.game (System.run ops (System.initial A U C)))) !! i = Some e →
  ∃ n, quantity e = VNum n.
Proof.
  revert i e.
  apply (run_invariant (λ s, ∀ i e, items (shopConfig (System.game s)) !! i = Some e
                                    → ∃ n, quantity e = VNum n)).
  - apply step_quantity_number.
  - intros i e. simpl. by rewrite lookup_empty.
Qed.

(** C3. In every state the session reaches from the initial one, when
    the actor, the item and the entry resolve and the entry is Limited: the
    available stock is currentStock if set, else the quantity, else 0; the
    purchase fails with SoldOut exactly when the available stock is at most
    0; in particular with stock 0 it fails with SoldOut whatever the
    balance of the actor. *)
Theorem purchaseItem_SoldOut_iff_reachable :
  ∀ (ops : list System.Op)
    (A : gmap string Actor) (U : gmap string string) (C : gmap string Item)
    (id t a i : string) (actor : Actor) (item : Item) (e : Entry),
    let w := System.game (System.run ops (System.initial A U C)) in
    actors w !! a = Some actor → catalog w !! i = Some item →
    items (shopConfig w) !! i = Some e →
    availability e = Some AVAILABILITY_TYPES.LIMITED →
    getAvailableStock i w = currentStock e ?? quantity e ?? int 0
    ∧ ((purchaseItem id t a i w).1 = SoldOut
       ↔ le (getAvailableStock i w) (int 0) = true)
    ∧ (getAvailableStock i w = int 0 → (purchaseItem id t a i w).1 = SoldOut).
Proof.
  intros ops A U C id t a i actor item e w Ha Hi He Hav.
  assert ((purchaseItem id t a i w).1 = SoldOut
          ↔ le (getAvailableStock i w) (int 0) = true) as Hiff.
  { apply purchaseItem_SoldOut_iff with actor item e; try done.
    destruct (reachable_quantity_number ops A U C i e He) as [n Hn].
    unfold coalesce. rewrite Hn. by destruct (currentStock e). }
  split; [by apply getAvailableStock_limited|]. split; [exact Hiff|].
  intros H0. apply Hiff. rewrite H0. vm_compute. reflexivity.
Qed.

(** The admin makes the sword Limited with quantity 1 and saves; the
    hero, who owns 100 pieces, buys the sword of base price 30. The stock
    is then 0 and a further purchase by the hero, who still owns 70
    pieces, fails with SoldOut. *)
Lemma purchaseItem_SoldOut_iff_reachable_witness :
  let w :=
    System.game
      (System.run [System.OpAvailabilityChange "sword" "limited";
                   System.OpQuantityChange "sword" (Num 1);
                   System.OpSaveConfig ["pack"];
                   System.OpPurchase "id1" "t1" "hero" "sword"]
         (System.initial {[ "hero" := Demo.hero 100 ]} {[ "u1" := "Ann" ]}
            {[ "sword" := Demo.sword ]})) in
  gp <$> actors w !! "hero" = Some (int 70)
  ∧ getAvailableStock "sword" w = int 0
  ∧ (purchaseItem "id2" "t2" "hero" "sword" w).1 = SoldOut.
Proof.
  intros w.
  assert (∃ actor, actors w !! "hero" = Some actor) as [actor Ha]
    by (eexists; vm_compute; reflexivity).
  assert (∃ e, items (shopConfig w) !! "sword" = Some e
               ∧ availability e = Some AVAILABILITY_TYPES.LIMITED) as (e & He & Hav)
    by (eexists; split; vm_compute; reflexivity).
  destruct (purchaseItem_SoldOut_iff_reachable
              [System.OpAvailabilityChange "sword" "limited";
               System.OpQuantityChange "sword" (Num 1);
               System.OpSaveConfig ["pack"];
               System.OpPurchase "id1" "t1" "hero" "sword"]
              {[ "hero" := Demo.hero 100 ]} {[ "u1" := "Ann" ]}
              {[ "sword" := Demo.sword ]}
              "id2" "t2" "hero" "sword" actor Demo.sword e Ha eq_refl He Hav)
    as (_ & _ & Hzero).
  split; [vm_compute; reflexivity|].
  split; [vm_compute; reflexivity|].
  apply Hzero. vm_compute. reflexivity.
Defined.

(** ** The effective price *)

(** C4, amended. The effective price is the entry's custom price whenever
    that is neither [undefined], [null] nor the empty string, whatever the
    base price of the catalogue item: every number counts, NaN too. Without
    a custom price it is the base price of the item when that is a number
    other than 0 and NaN, and 0 otherwise. *)
Theorem getItemPrice_effective :
  ∀ (item : Item) (itemConfig : option Entry),
    (∀ n, customPrice_of itemConfig = VNum n →
          getItemPrice item itemConfig = VNum n)
    ∧ (custom_unset (customPrice_of itemConfig) →
       truthy (price_value item) = true →
       getItemPrice item itemConfig = price_value item)
    ∧ (custom_unset (customPrice_of itemConfig) →
       truthy (price_value item) = false →
       getItemPrice item itemConfig = int 0).
Proof.
  intros item cfg. unfold getItemPrice, or_else. repeat split.
  - intros n ->. reflexivity.
  - intros Hc ->. by destruct Hc as [-> | [-> | ->]].
  - intros Hc ->. by destruct Hc as [-> | [-> | ->]].
Qed.

(** A custom price of 12 on a sword of base price 30; no custom price; and
    no custom price on an item without base price. *)
Lemma getItemPrice_effective_witness :
  getItemPrice Demo.sword (Some (Demo.priced 12)) = int 12
  ∧ getItemPrice Demo.sword (Some (Demo.entry "unlimited" (int 1) Null)) = int 30
  ∧ getItemPrice Demo.leaf None = int 0.
Proof.
  split; [|split].
  - apply (proj1 (getItemPrice_effective Demo.sword (Some (Demo.priced 12)))).
    reflexivity.
  - apply (proj1 (proj2 (getItemPrice_effective Demo.sword
                           (Some (Demo.entry "unlimited" (int 1) Null))))).
    + right; left; reflexivity.
    + reflexivity.
  - apply (proj2 (proj2 (getItemPrice_effective Demo.leaf None))).
    + left; reflexivity.
    + reflexivity.
Defined.

(** A custom price that is set but is no numeric value does not give way
    to the base price: for an entry whose custom price is NaN the effective
    price of the sword is NaN and not its base price 30. The admin form
    stores such an entry: the admin types a text that is no number into the
    price field of the sword, for which [parseFloat] returns NaN, and
    saves; the effective price is NaN and the hero's purchase fails for
    lack of funds with 100 pieces at hand. *)
Lemma getItemPrice_custom_NaN :
  let itemConfig :=
    {| availability := Some "unlimited"; quantity := int 1;
       customPrice := VNum NaN; currentStock := Null |} in
  let w :=
    System.game
      (System.run [System.OpCustomPriceChange "sword" (Some NaN);
                   System.OpSaveConfig ["pack"]]
         (System.initial {[ "hero" := Demo.hero 100 ]} {[ "u1" := "Ann" ]}
            {[ "sword" := Demo.sword ]})) in
  (price_value Demo.sword = int 30
   ∧ getItemPrice Demo.sword (Some itemConfig) = VNum NaN
   ∧ getItemPrice Demo.sword (Some itemConfig) ≠ int 30)
  ∧ (customPrice_of (getItemConfig "sword" w) = VNum NaN
     ∧ getItemPrice Demo.sword (getItemConfig "sword" w) = VNum NaN
     ∧ purchaseItem "id" "now" "hero" "sword" w = (InsufficientFunds w, w)).
Proof. vm_compute. repeat split; try reflexivity. discriminate. Qed.

(** ** The shop-open flag *)

(** The buttons of the player shop do nothing while the shop is closed:
    the state is untouched and nothing goes on the channel. *)
Lemma PlayerShop_closed_no_effect (user : User) (sel : option string)
    (t id t' uuid : string) (w : World) :
  isShopOpen w = false →
  world (PlayerShop._purchaseItem user sel id t uuid w) = w
  ∧ emitted (PlayerShop._purchaseItem user sel id t uuid w) = []
  ∧ world (PlayerShop._reserveItem user sel t id t' uuid w) = w
  ∧ emitted (PlayerShop._reserveItem user sel t id t' uuid w) = [].
Proof.
  intros Hclosed. unfold PlayerShop._purchaseItem, PlayerShop._reserveItem.
  rewrite Hclosed. simpl.
  destruct sel as [a|]; [|done]. by destruct (String.eqb a "").
Qed.

(** The transactions themselves never read the flag: closing the shop
    changes neither their result nor what they write. *)
Lemma purchaseItem_ignores_flag (b : bool) (id t a i : string) (w : World) :
  purchaseItem id t a i (set_shopOpen b w)
  = ((purchaseItem id t a i w).1, set_shopOpen b (purchaseItem id t a i w).2).
Proof.
  unfold purchaseItem, getShopConfig. simpl.
  destruct (actors w !! a) as [actor|]; [|done].
  destruct (catalog w !! i) as [item|]; [|done].
  destruct (items (shopConfig w) !! i) as [e|]; [|done].
  destruct (is_availability AVAILABILITY_TYPES.LIMITED e
            && le (currentStock e ?? quantity e) (int 0)); [done|].
  destruct (canAfford actor (getItemPrice item (Some e))); [|done].
  simpl. by destruct (is_availability AVAILABILITY_TYPES.LIMITED e).
Qed.

Lemma reserveItem_ignores_flag (b : bool) (t id t' a i : string) (w : World) :
  reserveItem t id t' a i (set_shopOpen b w)
  = ((reserveItem t id t' a i w).1, set_shopOpen b (reserveItem t id t' a i w).2).
Proof.
  unfold reserveItem, getShopConfig, getReservations. simpl.
  destruct (actors w !! a) as [actor|]; [|done].
  destruct (catalog w !! i) as [item|]; [|done].
  destruct (items (shopConfig w) !! i) as [e|]; [|done].
  destruct (is_availability AVAILABILITY_TYPES.RESERVATION e); [|done].
  simpl. by destruct (reservations w !! i ≫= _).
Qed.

(** C5, at the input where the code departs from it. With the shop
    closed, a purchase request that reaches the GM's listener is carried
    out: the hero pays 30 of 100 pieces, receives the sword, the stock goes
    from 3 to 2 and the log gains an entry. A reserve request is carried out
    in the same way. *)
Lemma onRequest_while_closed :
  let w := Demo.shop false 100 (Demo.entry "limited" (int 3) Null) in
  let out := Main.onRequest Demo.gm "t" "id" "t'"
               (Request "purchaseRequest" "hero" "sword" None) w in
  let w2 := Demo.shop false 100 (Demo.entry "reservation" (int 1) Null) in
  let out2 := Main.onRequest Demo.gm "t" "id" "t'"
                (Request "reserveRequest" "hero" "sword" None) w2 in
  isShopOpen w = false
  ∧ isShopOpen (world out) = false
  ∧ gp <$> actors (world out) !! "hero" = Some (int 70)
  ∧ embedded <$> actors (world out) !! "hero" = Some [Demo.sword]
  ∧ getAvailableStock "sword" (world out) = int 2
  ∧ length (activityLog (world out)) = 1%nat
  ∧ isShopOpen w2 = false
  ∧ length <$> reservations (world out2) !! "sword" = Some 1%nat
  ∧ length (activityLog (world out2)) = 1%nat.
Proof. vm_compute. repeat split; reflexivity. Qed.

(** ** Reservations *)

Lemma reserveItem_one_per_actor (t id t' a i : string) (w : World) :
  one_per_actor w → one_per_actor (reserveItem t id t' a i w).2.
Proof.
  intros Hinv.
  destruct (success (reserveItem t id t' a i w).1) eqn:Hok;
    [|by rewrite reserveItem_failure].
  destruct (reserveItem_success _ _ _ _ _ _ Hok)
    as (actor & item & e & _ & _ & _ & _ & Hnot & Hres & _).
  intros j l. rewrite Hres.
  destruct (decide (i = j)) as [<-|Hne].
  - rewrite lookup_insert_eq. intros [= <-].
    rewrite fmap_app. simpl. apply NoDup_app.
    split; [|split].
    + destruct (reservations w !! i) as [l0|] eqn:E; simpl; [by eapply Hinv|].
      apply NoDup_nil_2.
    + intros x Hx ->%list_elem_of_singleton. apply Hnot.
      apply list_elem_of_fmap in Hx as (r & Hr & Hin).
      destruct (reservations w !! i) as [l0|] eqn:E; simpl in Hin;
        [|by apply elem_of_nil in Hin].
      by exists l0, r.
    + apply NoDup_singleton.
  - rewrite lookup_insert_ne by done. apply Hinv.
Qed.

Lemma step_one_per_actor (s : System.State) (op : System.Op) :
  one_per_actor (System.game s) → one_per_actor (System.game (System.step s op)).
Proof.
  intros Hinv. destruct op; simpl; try exact Hinv.
  - intros j l. rewrite purchaseItem_reservations. apply Hinv.
  - by apply reserveItem_one_per_actor.
  - unfold updateStock. by destruct (items (getShopConfig (System.game s)) !! itemUuid).
  - intros j l. unfold clearItemReservations, getReservations. simpl. intros Hl.
    apply lookup_delete_Some in Hl as [_ Hl]. by eapply Hinv.
Qed.

(** C6. In every state the authoritative session reaches from the initial
    one, no list of reservations names an actor twice. And after a
    successful reservation of item [i] by actor [a], a new attempt of [a] for
    [i] fails with AlreadyReserved and changes nothing, also when other
    reservation calls came in between; while an actor [b] who exists and
    holds no reservation for [i] succeeds, and that actor's record is
    appended to the list, the earlier records untouched. *)
Theorem reservation_one_per_actor :
  (∀ ops actors users catalog,
      one_per_actor (System.game (System.run ops (System.initial actors users catalog))))
  ∧ ∀ (t id t' a i : string) (w : World),
      success (reserveItem t id t' a i w).1 = true →
      let w1 := (reserveItem t id t' a i w).2 in
      (∀ calls u id2 u',
          let w2 := reserve_calls calls w1 in
          reserveItem u id2 u' a i w2 = (AlreadyReserved, w2))
      ∧ (∀ u id2 u' b actorB,
            actors w1 !! b = Some actorB → ¬ reserved b i w1 →
            success (reserveItem u id2 u' b i w1).1 = true
            ∧ ∃ l1, reservations w1 !! i = Some l1
                  ∧ reservations (reserveItem u id2 u' b i w1).2 !! i
                    = Some (l1 ++ [reservation_of u b (actor_name actorB)
                                     (reserve_playerName w1 actorB)])).
Proof.
  split.
  - intros ops A U C. apply run_invariant.
    + apply step_one_per_actor.
    + intros j l. simpl. by rewrite lookup_empty.
  - intros t id t' a i w Hok w1.
    destruct (reserveItem_success _ _ _ _ _ _ Hok)
      as (actor & item & e & Ha & Hi & He & Hav & Hnot & Hres & Ha1 & Hi1 & He1 & _).
    fold w1 in Hres, Ha1, Hi1, He1.
    assert (reserved a i w1) as Hmine.
    { unfold reserved. rewrite Hres, lookup_insert_eq. eexists _, _.
      split; [done|]. split; [apply elem_of_app; right; apply list_elem_of_singleton|];
        reflexivity. }
    split.
    + intros calls u id2 u' w2.
      destruct (reserve_calls_keeps calls w1) as (Ha2 & Hi2 & He2 & Hr2).
      fold w2 in Ha2, Hi2, He2, Hr2.
      apply reserveItem_again with actor item e.
      * by rewrite Ha2, Ha1.
      * by rewrite Hi2, Hi1.
      * by rewrite He2, He1.
      * done.
      * by apply Hr2.
    + intros u id2 u' b actorB Hb Hfree.
      assert (success (reserveItem u id2 u' b i w1).1 = true) as Hok2.
      { unfold reserveItem, getShopConfig, getReservations.
        rewrite Hb, Hi1, Hi, He1, He, Hav. simpl.
        destruct (reservations w1 !! i
                  ≫= List.find (λ r, String.eqb (res_actorId r) b)) as [x|] eqn:Hfind;
          [|done].
        exfalso. apply Hfree, reserved_find. by rewrite Hfind. }
      split; [done|].
      destruct (reserveItem_success _ _ _ _ _ _ Hok2)
        as (actor' & _ & _ & Hb' & _ & _ & _ & _ & Hres2 & _).
      rewrite Hb in Hb'. injection Hb' as <-.
      rewrite Hres2, lookup_insert_eq.
      destruct Hmine as (l1 & _ & Hl1 & _). exists l1. by rewrite Hl1.
Qed.

(** Hero reserves the sword; a second attempt of the hero is refused and
    changes nothing; the mage's reservation succeeds. *)
Lemma reservation_one_per_actor_witness :
  let w := Demo.shop true 10 (Demo.entry "reservation" (int 1) Null) in
  let w1 := (reserveItem "t" "id" "t'" "hero" "sword" w).2 in
  reserveItem "u" "id2" "u'" "hero" "sword" w1 = (AlreadyReserved, w1)
  ∧ success (reserveItem "u" "id2" "u'" "mage" "sword" w1).1 = true.
Proof.
  intros w w1.
  destruct (proj2 reservation_one_per_actor "t" "id" "t'" "hero" "sword" w)
    as [Hagain Hother].
  - vm_compute. reflexivity.
  - split.
    + exact (Hagain [] "u" "id2" "u'").
    + destruct (Hother "u" "id2" "u'" "mage" Demo.mage) as [Hok _].
      * reflexivity.
      * intros [x Hx]%reserved_find. vm_compute in Hx. discriminate Hx.
      * exact Hok.
Defined.

(** C7 as amended. [addReservation] appends the record to the item's list
    (an empty list when the item has none yet) whether or not the actor
    already has a reservation for the item, and changes nothing else; it
    returns no value. *)
Theorem addReservation_appends :
  ∀ (timestamp itemUuid actorId actorName playerName : string) (w : World),
    addReservation timestamp itemUuid actorId actorName playerName w
    = set_reservations
        (<[itemUuid := default [] (reservations w !! itemUuid)
                       ++ [reservation_of timestamp actorId actorName playerName]]>
           (reservations w)) w.
Proof.
  intros t i a an pn w. unfold addReservation, getReservations, reservation_of.
  f_equal. apply map_eq. intros j.
  destruct (decide (i = j)) as [<-|Hne].
  - rewrite lookup_insert_eq, lookup_alter_eq.
    destruct (reservations w !! i) as [l|] eqn:E; simpl.
    + by rewrite E.
    + by rewrite lookup_insert_eq.
  - rewrite lookup_insert_ne, lookup_alter_ne by done.
    destruct (reservations w !! i); [done|]. by rewrite lookup_insert_ne.
Qed.

(** C7 as stated fails: the hero already holds a reservation for the
    sword, and [addReservation] for the same pair appends a second one. *)
Lemma addReservation_duplicate :
  let w := Demo.shop true 10 (Demo.entry "reservation" (int 1) Null) in
  let w1 := addReservation "t1" "sword" "hero" "Hero" "Ann" w in
  let w2 := addReservation "t2" "sword" "hero" "Hero" "Ann" w1 in
  reserved "hero" "sword" w1
  ∧ w2 ≠ w1
  ∧ res_actorId <$> default [] (reservations w2 !! "sword") = ["hero"; "hero"].
Proof.
  split; [|split].
  - exists [reservation_of "t1" "hero" "Hero" "Ann"], (reservation_of "t1" "hero" "Hero" "Ann").
    split; [reflexivity|]. split; [apply list_elem_of_singleton|]; reflexivity.
  - intros H. apply (f_equal (λ w, length (default [] (reservations w !! "sword")))) in H.
    vm_compute in H. discriminate H.
  - reflexivity.
Qed.

(** ** Results sent back to the requesting session *)

(** The request a player's session sends carries no [sender]. *)
Lemma PlayerShop_request_has_no_sender (user : User) (sel : option string)
    (t id t' uuid : string) (w : World) (data : SocketData) :
  isGM user = false →
  data ∈ emitted (PlayerShop._purchaseItem user sel id t uuid w)
         ++ emitted (PlayerShop._reserveItem user sel t id t' uuid w) →
  ∃ action actorId, data = Request action actorId uuid None.
Proof.
  intros Hgm. unfold PlayerShop._purchaseItem, PlayerShop._reserveItem.
  rewrite Hgm. destruct sel as [a|]; simpl; [|by intros ?%elem_of_nil].
  destruct (String.eqb a ""); simpl; [by intros ?%elem_of_nil|].
  destruct (isShopOpen w); simpl; [|by intros ?%elem_of_nil].
  intros [->| [->|?%elem_of_nil]%elem_of_cons]%elem_of_cons; [| |done]; eauto.
Qed.

(** Whatever the GM's listener sends in answer to a request without
    [sender] is shown by the result listener of no session. *)
Lemma reply_without_sender_reaches_nobody (gm : User) (t id t' : string)
    (action actorId itemUuid : string) (w : World) (reply : SocketData) :
  reply ∈ emitted (Main.onRequest gm t id t'
                     (Request action actorId itemUuid None) w) →
  ∀ user, Main.onResult user reply = [].
Proof.
  unfold Main.onRequest.
  destruct (String.eqb action "purchaseRequest").
  - destruct (purchaseItem id t actorId itemUuid w) as [r w'].
    cbn [emitted]. intros Hin user.
    apply elem_of_app in Hin as [Hin | Hin].
    + destruct (success r); [|by apply elem_of_nil in Hin].
      apply list_elem_of_singleton in Hin as ->. reflexivity.
    + apply list_elem_of_singleton in Hin as ->. reflexivity.
  - destruct (String.eqb action "reserveRequest").
    + destruct (reserveItem t id t' actorId itemUuid w) as [r w'].
      cbn [emitted]. intros Hin user.
      apply elem_of_app in Hin as [Hin | Hin].
      * destruct (success r); [|by apply elem_of_nil in Hin].
        apply list_elem_of_singleton in Hin as ->. reflexivity.
      * apply list_elem_of_singleton in Hin as ->. reflexivity.
    + cbn [emitted]. by intros ?%elem_of_nil.
Qed.

(** The filter of the result listener itself works: a result tagged with a
    user id is shown in that user's session and in no other. *)
Lemma onResult_tagged (user : User) (result : Result) (u : string) :
  Main.onResult user (Reply "purchaseResult" result (Some u))
  = if String.eqb u (user_id user) then [notify result] else [].
Proof. unfold Main.onResult, Main.is_target. simpl. by destruct (String.eqb u (user_id user)). Qed.

(** C8, at the input where the code departs from it. Ann's session (user
    u1, not the GM) asks to buy the sword for the hero; the request goes out
    without [sender]; the GM's listener carries out the purchase and sends
    the result with an undefined [targetUser]; Ann's result listener, like
    that of any other user, shows nothing. *)
Lemma purchase_result_not_delivered :
  let w := Demo.shop true 100 (Demo.entry "unlimited" (int 1) Null) in
  let request := Request "purchaseRequest" "hero" "sword" None in
  let out := Main.onRequest Demo.gm "t" "id" "t'" request w in
  emitted (PlayerShop._purchaseItem Demo.player (Some "hero") "id" "t" "sword" w)
  = [request]
  ∧ (∃ result ev, emitted out = [ev; Reply "purchaseResult" result None]
                  ∧ success result = true
                  ∧ Main.is_target Demo.player (Reply "purchaseResult" result None) = false)
  ∧ Forall (λ reply, Main.onResult Demo.player reply = []) (emitted out)
  ∧ gp <$> actors (world out) !! "hero" = Some (int 70).
Proof.
  vm_compute. split; [reflexivity|]. split.
  - eexists _, _. repeat split; reflexivity.
  - split; [|reflexivity]. repeat constructor.
Qed.

(** ** The bounded activity log *)

Lemma appends_log (es : list (string * string * LogData)) (w : World) :
  (length (activityLog w) ≤ 500)%nat →
  activityLog (appends es w) = take 500 (rev (stamped es) ++ activityLog w).
Proof.
  revert w. induction es as [|[[id t] entry] es IH]; intros w Hlen.
  - simpl. by rewrite take_ge.
  - change (appends ((id, t, entry) :: es) w)
      with (appends es (addActivityLog id t entry w)).
    change (stamped ((id, t, entry) :: es))
      with (stamp entry id t :: stamped es).
    assert (activityLog (addActivityLog id t entry w)
            = take 500 (stamp entry id t :: activityLog w)) as Hpush
      by (apply log_push_take; exact Hlen).
    rewrite IH.
    + rewrite Hpush. rewrite take_app_take by lia.
      change (rev (stamp entry id t :: stamped es))
        with (rev (stamped es) ++ [stamp entry id t]).
      by rewrite <- (assoc_L (++)).
    + rewrite Hpush, length_take. lia.
Qed.

Lemma step_log_bounded (s : System.State) (op : System.Op) :
  (length (activityLog (System.game s)) ≤ 500)%nat →
  (length (activityLog (System.game (System.step s op))) ≤ 500)%nat.
Proof.
  intros Hlen. destruct op; simpl; try exact Hlen.
  - by apply purchaseItem_log_bounded.
  - by apply reserveItem_log_bounded.
  - unfold updateStock. by destruct (items (getShopConfig (System.game s)) !! itemUuid).
  - unfold getActivityLog.
    pose proof (remove_first_length entryId (activityLog (System.game s))). lia.
  - lia.
Qed.

(** C9. The activity log never holds more than 500 entries: not in any
    state the authoritative session reaches from the initial one, and not
    after any sequence of appends to a log within the bound, which leaves the
    500 most recent entries, newest first. An append to a log of exactly 500
    entries drops exactly its oldest entry (the last one of the list) and
    puts the new one in front. *)
Theorem activity_log_bounded :
  (∀ ops actors users catalog,
      (length (activityLog (System.game
                 (System.run ops (System.initial actors users catalog)))) ≤ 500)%nat)
  ∧ ∀ (es : list (string * string * LogData)) (w : World),
      (length (activityLog w) ≤ 500)%nat →
      (length (activityLog (appends es w)) ≤ 500)%nat
      ∧ activityLog (appends es w) = take 500 (rev (stamped es) ++ activityLog w)
      ∧ ∀ id t entry,
          length (activityLog (appends es w)) = 500%nat →
          activityLog (addActivityLog id t entry (appends es w))
          = stamp entry id t :: removelast (activityLog (appends es w))
          ∧ length (activityLog (addActivityLog id t entry (appends es w))) = 500%nat.
Proof.
  split.
  { intros ops A U C.
    apply (run_invariant (λ s, (length (activityLog (System.game s)) ≤ 500)%nat)).
    - apply step_log_bounded.
    - simpl. lia. }
  intros es w Hlen.
  assert (activityLog (appends es w) = take 500 (rev (stamped es) ++ activityLog w)) as Heq
    by by apply appends_log.
  split; [|split].
  - rewrite Heq, length_take. lia.
  - exact Heq.
  - intros id t entry H500.
    change (activityLog (addActivityLog id t entry (appends es w)))
      with (log_push (stamp entry id t) (activityLog (appends es w))).
    unfold log_push. rewrite length_cons, H500.
    change (Nat.ltb 500 501) with true. cbv iota.
    destruct (activityLog (appends es w)) as [|x l]; [done|].
    change (removelast (stamp entry id t :: x :: l))
      with (stamp entry id t :: removelast (x :: l)).
    split; [reflexivity|].
    rewrite length_cons, removelast_firstn_len, length_take, H500. reflexivity.
Qed.

(** The log holds 499 entries and one older one; the append puts the new
    entry in front and drops the oldest. *)
Lemma activity_log_bounded_witness :
  let w := set_activityLog (Demo.full_log) (Demo.shop true 10 (Demo.entry "unlimited" (int 1) Null)) in
  activityLog (addActivityLog "id" "now" Demo.bought w)
  = stamp Demo.bought "id" "now" :: repeat Demo.filler 499.
Proof.
  intros w.
  destruct (proj2 activity_log_bounded [] w) as (_ & _ & H).
  - vm_compute. lia.
  - destruct (H "id" "now" Demo.bought) as [-> _]; reflexivity.
Defined.

(** ** Stock can become negative *)

(** C10, amended. The three writers of currentStock, for a configured
    item. The stock override stores the value it is given, without a
    check. The quantity edit followed by a save stores the parsed quantity,
    1 in place of NaN and 0, without a check. A successful purchase of a
    Limited entry has found the stock not at most 0 and stores the double
    [stock - 1]; from a stock that is the safe integer [s] this is the
    integer [s - 1], with [0 < s]. *)
Theorem currentStock_writers :
  ∀ (i : string) (w : World) (e : Entry),
    items (shopConfig w) !! i = Some e →
    (∀ v, currentStock <$> items (shopConfig (updateStock i v w)) !! i = Some v)
    ∧ (∀ parsed draft cs,
         currentStock <$>
           items (shopConfig
                    (ShopManager._onSaveConfig cs
                       (ShopManager._onQuantityChange i parsed draft) w)) !! i
         = Some (or_else (VNum parsed) (int 1)))
    ∧ (∀ id t a r w',
         availability e = Some AVAILABILITY_TYPES.LIMITED →
         purchaseItem id t a i w = (r, w') → success r = true →
         le (currentStock e ?? quantity e) (int 0) = false
         ∧ currentStock <$> items (shopConfig w') !! i
           = Some (sub (currentStock e ?? quantity e) (int 1))
         ∧ ∀ s, currentStock e ?? quantity e = int s → safe s →
                0 < s
                ∧ currentStock <$> items (shopConfig w') !! i = Some (int (s - 1))).
Proof.
  intros i w e He. split; [|split].
  - intros v. unfold updateStock, getShopConfig. rewrite He. simpl.
    by rewrite lookup_alter_eq, He.
  - intros parsed draft cs. simpl. unfold ShopManager._onQuantityChange.
    rewrite lookup_fmap, lookup_insert_eq. simpl.
    unfold or_else, coalesce.
    destruct (truthy (VNum parsed)); reflexivity.
  - intros id t a r w' Hav Hrun Hok.
    destruct (purchase_limited_step _ _ _ _ _ _ _ _ _ He Hav eq_refl Hrun Hok)
      as (Hchk & e' & He' & _ & _ & Hcur & _).
    split; [exact Hchk|]. split; [by rewrite He'; simpl; rewrite Hcur|].
    intros s Hs Hsafe. rewrite Hs in Hchk.
    unfold le, int, num_le in Hchk. simpl in Hchk.
    rewrite leb_Num_0 in Hchk by done. apply Z.leb_gt in Hchk.
    split; [lia|]. rewrite He'. simpl. rewrite Hcur, Hs.
    unfold sub, int, num_sub. simpl. rewrite sub_Num; [done | done | |].
    + unfold safe. lia.
    + unfold safe in *. lia.
Qed.

(** The admin sets up two swords and saves, the hero buys one: the stock
    is 1. The admin then sets the stock to 5: the stock is 5. *)
Lemma currentStock_writers_witness :
  let w :=
    System.game
      (System.run [System.OpQuantityChange "sword" (Num 2);
                   System.OpAvailabilityChange "sword" "limited";
                   System.OpSaveConfig ["pack"]]
         (System.initial {[ "hero" := Demo.hero 100 ]} {[ "u1" := "Ann" ]}
            {[ "sword" := Demo.sword ]})) in
  currentStock <$> items (shopConfig (purchaseItem "id" "now" "hero" "sword" w).2) !! "sword"
  = Some (int 1)
  ∧ currentStock <$> items (shopConfig (updateStock "sword" (int 5) w)) !! "sword"
    = Some (int 5).
Proof.
  intros w.
  assert (∃ e, items (shopConfig w) !! "sword" = Some e
               ∧ availability e = Some AVAILABILITY_TYPES.LIMITED
               ∧ currentStock e ?? quantity e = int 2) as (e & He & Hav & Hs)
    by (eexists; repeat split; vm_compute; reflexivity).
  destruct (currentStock_writers "sword" w e He) as (Hset & _ & Hbuy).
  split; [|apply Hset].
  destruct (Hbuy "id" "now" "hero"
              (purchaseItem "id" "now" "hero" "sword" w).1
              (purchaseItem "id" "now" "hero" "sword" w).2 Hav)
    as (_ & _ & Hint).
  - by destruct (purchaseItem "id" "now" "hero" "sword" w).
  - vm_compute. reflexivity.
  - assert (safe 2) as H2 by (unfold safe; lia).
    exact (proj2 (Hint 2 Hs H2)).
Defined.

(** C10 as stated fails. The admin's stock override stores a negative
    value as it is, and so does the quantity field. And the purchase-time
    decrement takes a stock between 0 and 1 below 0: with the stock set to
    0.5 the sold-out check lets the hero's purchase pass, and the stock
    stored is -0.5. *)
Lemma currentStock_negative :
  let start := System.initial {[ "hero" := Demo.hero 100 ]} ∅ {[ "sword" := Demo.sword ]} in
  let s1 := System.run [System.OpQuantityChange "sword" (Num 2);
                        System.OpAvailabilityChange "sword" "limited";
                        System.OpSaveConfig ["pack"];
                        System.OpUpdateStock "sword" (int (-3))] start in
  let s2 := System.run [System.OpQuantityChange "sword" (Num (-5));
                        System.OpAvailabilityChange "sword" "limited";
                        System.OpSaveConfig ["pack"]] start in
  let s3 := System.run [System.OpQuantityChange "sword" (Num 2);
                        System.OpAvailabilityChange "sword" "limited";
                        System.OpSaveConfig ["pack"];
                        System.OpUpdateStock "sword" (VNum 0.5%float)] start in
  let out := purchaseItem "id" "now" "hero" "sword" (System.game s3) in
  (currentStock <$> items (shopConfig (System.game s1)) !! "sword" = Some (int (-3))
   ∧ le (int 0) (int (-3)) = false ∧ le (int (-3)) (int 0) = true)
  ∧ (currentStock <$> items (shopConfig (System.game s2)) !! "sword" = Some (int (-5))
     ∧ le (int 0) (int (-5)) = false ∧ le (int (-5)) (int 0) = true)
  ∧ (getAvailableStock "sword" (System.game s3) = VNum 0.5%float
     ∧ success out.1 = true
     ∧ currentStock <$> items (shopConfig out.2) !! "sword" = Some (VNum (-0.5)%float)
     ∧ newStock out.1 = VNum (-0.5)%float
     ∧ le (int 0) (VNum (-0.5)%float) = false
     ∧ le (VNum (-0.5)%float) (int 0) = true).
Proof. vm_compute. repeat split; reflexivity. Qed.

(** * Further properties of the code *)

(** ** The reservation protocol *)

(** X1. A reservation call that does not succeed leaves the world as it
    was and returns the failure of the check that stopped it: ActorNotFound,
    ItemNotFound, NotReservable for an item without shop entry as well as for
    one whose availability is not reservation, AlreadyReserved when the actor
    holds a reservation for the item. *)
Theorem reserveItem_failure_cases :
  ∀ (t id t' a i : string) (w : World),
    success (reserveItem t id t' a i w).1 = false →
    (reserveItem t id t' a i w).2 = w
    ∧ let r := (reserveItem t id t' a i w).1 in
      match actors w !! a, catalog w !! i, items (shopConfig w) !! i with
      | None, _, _ => r = ActorNotFound
      | Some _, None, _ => r = ItemNotFound
      | Some _, Some _, None => r = NotReservable
      | Some _, Some _, Some e =>
          (r = NotReservable ∧ availability e ≠ Some AVAILABILITY_TYPES.RESERVATION)
          ∨ (r = AlreadyReserved
             ∧ availability e = Some AVAILABILITY_TYPES.RESERVATION
             ∧ reserved a i w)
      end.
Proof.
  intros t id t' a i w Hfail. split; [by apply reserveItem_failure|].
  revert Hfail. unfold reserveItem, getShopConfig, getReservations.
  destruct (actors w !! a) as [actor|]; [|done].
  destruct (catalog w !! i) as [item|]; [|done].
  destruct (items (shopConfig w) !! i) as [e|]; [|done].
  destruct (is_availability AVAILABILITY_TYPES.RESERVATION e) eqn:Hav; simpl.
  - destruct (reservations w !! i ≫= _) as [x|] eqn:Hfind; [|done].
    intros _. right. split; [done|]. split.
    + unfold is_availability in Hav. destruct (availability e); [|done].
      apply String.eqb_eq in Hav. by subst.
    + apply reserved_find. by rewrite Hfind.
  - intros _. left. split; [done|]. intros Heq.
    unfold is_availability in Hav. by rewrite Heq in Hav.
Qed.

(** The mage asks to reserve a sword that is sold without limit. *)
Lemma reserveItem_failure_cases_witness :
  let w := Demo.shop true 10 (Demo.entry "unlimited" (int 1) Null) in
  (reserveItem "t" "id" "t'" "mage" "sword" w).2 = w.
Proof.
  intros w.
  apply (proj1 (reserveItem_failure_cases "t" "id" "t'" "mage" "sword" w eq_refl)).
Defined.

(** X2. A successful reservation changes neither an actor (no currency,
    no inventory change) nor the shop configuration, users, catalogue, flag
    or currency name; it appends the actor's record to the item's list and
    puts one entry of type reservation, without price and currency, in front
    of the log. *)
Theorem reserveItem_success_effects :
  ∀ (t id t' a i : string) (w : World),
    success (reserveItem t id t' a i w).1 = true →
    let w' := (reserveItem t id t' a i w).2 in
    ∃ actor item,
      actors w !! a = Some actor ∧ catalog w !! i = Some item
      ∧ actors w' = actors w ∧ shopConfig w' = shopConfig w
      ∧ users w' = users w ∧ catalog w' = catalog w
      ∧ shopOpen w' = shopOpen w ∧ currencyName w' = currencyName w
      ∧ reservations w' !! i
        = Some (default [] (reservations w !! i)
                ++ [reservation_of t a (actor_name actor) (reserve_playerName w actor)])
      ∧ (∀ j, j ≠ i → reservations w' !! j = reservations w !! j)
      ∧ activityLog w'
        = log_push
            (stamp {| data_type := "reservation"; data_actorId := a;
                      data_actorName := actor_name actor;
                      data_playerName := reserve_playerName w actor;
                      data_itemUuid := i; data_itemName := item_name item;
                      data_price := None; data_currency := None |} id t')
            (activityLog w).
Proof.
  intros t id t' a i w. unfold reserveItem, getShopConfig, getReservations.
  destruct (actors w !! a) as [actor|]; [|done].
  destruct (catalog w !! i) as [item|]; [|done].
  destruct (items (shopConfig w) !! i) as [e|]; [|done].
  destruct (is_availability AVAILABILITY_TYPES.RESERVATION e); [|done].
  simpl. destruct (reservations w !! i ≫= _) as [x|]; [done|].
  intros _. exists actor, item. cbn [snd].
  rewrite addReservation_fields. simpl.
  repeat (split; [done|]).
  split; [by rewrite lookup_insert_eq|].
  split; [|done]. intros j Hne. by rewrite lookup_insert_ne.
Qed.

(** The hero reserves the sword: the 10 pieces are still there. *)
Lemma reserveItem_success_effects_witness :
  let w := Demo.shop true 10 (Demo.entry "reservation" (int 1) Null) in
  actors (reserveItem "t" "id" "t'" "hero" "sword" w).2 = actors w.
Proof.
  intros w.
  destruct (reserveItem_success_effects "t" "id" "t'" "hero" "sword" w eq_refl)
    as (actor & item & _ & _ & H & _).
  exact H.
Defined.

(** ** The purchase protocol *)

Lemma not_limited (e : Entry) :
  availability e ≠ Some AVAILABILITY_TYPES.LIMITED →
  is_availability AVAILABILITY_TYPES.LIMITED e = false.
Proof.
  unfold is_availability. destruct (availability e) as [k|]; [|done].
  intros Hne. destruct (String.eqb_spec k AVAILABILITY_TYPES.LIMITED); [|done].
  by subst.
Qed.

(** X3. A successful purchase touches nothing but the buyer, the entry of
    the item and the log: the buyer's balance becomes the double
    [balance - price] and a
    copy of the item is appended to the inventory, the other actors are as
    before; of the item's entry only currentStock can differ, the other
    entries and the list of compendiums are as before; one entry of type
    purchase, with the price and the currency name, is put in front of the
    log; reservations, users, catalogue, flag and currency name are as
    before. *)
Theorem purchaseItem_success_effects :
  ∀ (id t a i : string) (w : World),
    success (purchaseItem id t a i w).1 = true →
    let w' := (purchaseItem id t a i w).2 in
    ∃ actor item e,
      actors w !! a = Some actor ∧ catalog w !! i = Some item
      ∧ items (shopConfig w) !! i = Some e
      ∧ actors w' !! a
        = Some {| actor_name := actor_name actor;
                  gp := sub (gp actor) (getItemPrice item (Some e));
                  ownership := ownership actor;
                  embedded := embedded actor ++ [item] |}
      ∧ (∀ b, b ≠ a → actors w' !! b = actors w !! b)
      ∧ (∀ j, j ≠ i → items (shopConfig w') !! j = items (shopConfig w) !! j)
      ∧ compendiums (shopConfig w') = compendiums (shopConfig w)
      ∧ (∃ e', items (shopConfig w') !! i = Some e'
               ∧ availability e' = availability e ∧ quantity e' = quantity e
               ∧ customPrice e' = customPrice e)
      ∧ activityLog w'
        = log_push
            (stamp {| data_type := "purchase"; data_actorId := a;
                      data_actorName := actor_name actor;
                      data_playerName := purchase_playerName w actor;
                      data_itemUuid := i; data_itemName := item_name item;
                      data_price := Some (getItemPrice item (Some e));
                      data_currency := Some (currencyName w) |} id t)
            (activityLog w)
      ∧ reservations w' = reservations w ∧ users w' = users w
      ∧ catalog w' = catalog w ∧ shopOpen w' = shopOpen w
      ∧ currencyName w' = currencyName w.
Proof.
  intros id t a i w. unfold purchaseItem, getShopConfig.
  destruct (actors w !! a) as [actor|] eqn:Ha; [|done].
  destruct (catalog w !! i) as [item|] eqn:Hi; [|done].
  destruct (items (shopConfig w) !! i) as [e|] eqn:He; [|done].
  destruct (is_availability AVAILABILITY_TYPES.LIMITED e
            && le (currentStock e ?? quantity e) (int 0)); [done|].
  destruct (canAfford actor (getItemPrice item (Some e))); [|done].
  intros _. exists actor, item, e. repeat (split; [done|]).
  destruct (is_availability AVAILABILITY_TYPES.LIMITED e); simpl.
  - rewrite !lookup_alter_eq, Ha, He. simpl. split; [done|].
    split; [by intros b Hb; rewrite !lookup_alter_ne|].
    split; [by intros j Hj; rewrite lookup_alter_ne|].
    split; [done|]. split; [|done]. by eexists.
  - rewrite !lookup_alter_eq, Ha. simpl. split; [done|].
    split; [by intros b Hb; rewrite !lookup_alter_ne|].
    split; [done|]. split; [done|]. split; [|done]. by exists e.
Qed.

(** The hero buys one of three swords: the mage still has 5 pieces. *)
Lemma purchaseItem_success_effects_witness :
  let w := Demo.shop true 100 (Demo.entry "limited" (int 3) Null) in
  actors (purchaseItem "id" "now" "hero" "sword" w).2 !! "mage" = Some Demo.mage.
Proof.
  intros w.
  destruct (purchaseItem_success_effects "id" "now" "hero" "sword" w eq_refl)
    as (actor & item & e & _ & _ & _ & _ & Hothers & _).
  rewrite Hothers; [reflexivity | discriminate].
Defined.

(** X4. An item whose availability is not limited (unlimited,
    reservation or anything else) is sold whenever the actor can afford it:
    there is no stock check, the shop configuration is not written, and the
    result carries [null] as new stock. *)
Theorem purchaseItem_not_limited :
  ∀ (id t a i : string) (w : World) (actor : Actor) (item : Item) (e : Entry),
    actors w !! a = Some actor → catalog w !! i = Some item →
    items (shopConfig w) !! i = Some e →
    availability e ≠ Some AVAILABILITY_TYPES.LIMITED →
    success (purchaseItem id t a i w).1 = canAfford actor (getItemPrice item (Some e))
    ∧ (success (purchaseItem id t a i w).1 = true →
       shopConfig (purchaseItem id t a i w).2 = shopConfig w
       ∧ newStock (purchaseItem id t a i w).1 = Null).
Proof.
  intros id t a i w actor item e Ha Hi He Hav.
  apply not_limited in Hav. unfold purchaseItem, getShopConfig.
  rewrite Ha, Hi, He, Hav. simpl.
  by destruct (canAfford actor (getItemPrice item (Some e))).
Qed.

(** Balance 50, base price 30, unlimited: the purchase succeeds and the
    shop configuration is as before. The same holds for an item that is
    offered for reservation only. *)
Lemma purchaseItem_not_limited_witness :
  let w := Demo.shop true 50 (Demo.entry "unlimited" (int 1) Null) in
  let w2 := Demo.shop true 50 (Demo.entry "reservation" (int 1) Null) in
  (success (purchaseItem "id" "now" "hero" "sword" w).1 = true
   ∧ shopConfig (purchaseItem "id" "now" "hero" "sword" w).2 = shopConfig w)
  ∧ success (purchaseItem "id" "now" "hero" "sword" w2).1 = true.
Proof.
  intros w w2. split.
  - destruct (purchaseItem_not_limited "id" "now" "hero" "sword" w (Demo.hero 50)
                Demo.sword (Demo.entry "unlimited" (int 1) Null)) as [Hok Hcfg];
      [reflexivity | reflexivity | reflexivity | discriminate |].
    split; [by rewrite Hok|]. apply Hcfg. by rewrite Hok.
  - destruct (purchaseItem_not_limited "id" "now" "hero" "sword" w2 (Demo.hero 50)
                Demo.sword (Demo.entry "reservation" (int 1) Null)) as [Hok _];
      [reflexivity | reflexivity | reflexivity | discriminate |].
    by rewrite Hok.
Defined.

Lemma purchases_limited (calls : list (string * string * string)) (i : string)
    (w w' : World) (e : Entry) (s : Z) :
  items (shopConfig w) !! i = Some e →
  availability e = Some AVAILABILITY_TYPES.LIMITED →
  currentStock e ?? quantity e = int s → safe s →
  purchases calls i w = Some w' →
  Z.of_nat (length calls) ≤ Z.max 0 s
  ∧ ∃ e', items (shopConfig w') !! i = Some e'
          ∧ availability e' = Some AVAILABILITY_TYPES.LIMITED
          ∧ currentStock e' ?? quantity e' = int (s - Z.of_nat (length calls)).
Proof.
  revert w e s. induction calls as [|[[id t] a] calls IH]; intros w e s He Hav HS Hs Hrun.
  - injection Hrun as <-. split; [simpl; lia|].
    exists e. rewrite Z.sub_0_r. done.
  - simpl in Hrun.
    destruct (purchaseItem id t a i w) as [r w1] eqn:Hstep.
    destruct (success r) eqn:Hok; [|done].
    destruct (purchase_limited_step _ _ _ _ _ _ _ _ _ He Hav HS Hstep Hok)
      as (Hpos & e1 & He1 & Hav1 & HS1 & _).
    unfold le, int, num_le in Hpos. simpl in Hpos.
    rewrite leb_Num_0 in Hpos by done. apply Z.leb_gt in Hpos.
    assert (safe (s - 1)) as Hs1 by (unfold safe in *; lia).
    assert (sub (int s) (int 1) = int (s - 1)) as Hdec.
    { unfold sub, int, num_sub. simpl. rewrite sub_Num; [done | done | | done].
      unfold safe. lia. }
    rewrite Hdec in HS1.
    destruct (IH w1 e1 (s - 1) He1 Hav1 HS1 Hs1 Hrun) as (Hlen & e' & He' & Hav' & HS').
    split; [rewrite length_cons; lia|].
    exists e'. repeat (split; [done|]). rewrite HS'. unfold int. do 2 f_equal.
    rewrite length_cons. lia.
Qed.

(** X5. Purchases of a Limited item that run one after the other, each to
    its end before the next starts, from a stock that is the safe integer
    [s]: no more than [s] of them succeed (none when [s] is not positive),
    and once [s] of them have succeeded every further purchase by an
    existing actor fails with SoldOut and changes nothing. Calls that
    overlap are not covered. *)
Theorem purchases_in_turn_sell_out :
  ∀ (calls : list (string * string * string)) (i : string) (w w' : World)
    (e : Entry) (s : Z),
    items (shopConfig w) !! i = Some e →
    availability e = Some AVAILABILITY_TYPES.LIMITED →
    currentStock e ?? quantity e = int s → safe s →
    purchases calls i w = Some w' →
    Z.of_nat (length calls) ≤ Z.max 0 s
    ∧ (Z.of_nat (length calls) = s →
       ∀ id t a actor item,
         actors w' !! a = Some actor → catalog w' !! i = Some item →
         purchaseItem id t a i w' = (SoldOut, w')).
Proof.
  intros calls i w w' e s He Hav HS Hs Hrun.
  destruct (purchases_limited _ _ _ _ _ _ He Hav HS Hs Hrun)
    as (Hlen & e' & He' & Hav' & HS').
  split; [done|]. intros Hfull id t a actor item Ha Hi.
  destruct (is_limited_eq e' Hav') as [Hlim _].
  unfold purchaseItem, getShopConfig.
  rewrite Ha, Hi, He', Hlim, HS', Hfull, Z.sub_diag. reflexivity.
Qed.

(** One sword in stock: after the hero bought it the mage is told that it
    is sold out. *)
Lemma purchases_in_turn_sell_out_witness :
  let w := Demo.shop true 100 (Demo.entry "limited" (int 1) Null) in
  let w' := (purchaseItem "id" "now" "hero" "sword" w).2 in
  purchaseItem "id2" "later" "mage" "sword" w' = (SoldOut, w').
Proof.
  intros w w'.
  assert (safe 1) as H1 by (unfold safe; lia).
  destruct (purchases_in_turn_sell_out [("id", "now", "hero")] "sword" w w'
              (Demo.entry "limited" (int 1) Null) 1) as [_ Hsold];
    [reflexivity | reflexivity | reflexivity | exact H1 | reflexivity |].
  apply (Hsold eq_refl "id2" "later" "mage" Demo.mage Demo.sword); reflexivity.
Defined.

(** X6. A successful purchase does not overdraw a balance that is a safe
    integer [g]: the actor could afford the price, and when the price is
    the safe integer [p], with [g - p] safe, then [p] is at most [g] and the
    new balance is the integer [g - p], which is not negative. *)
Theorem purchaseItem_no_overdraft :
  ∀ (id t a i : string) (w : World) (actor : Actor) (g : Z),
    actors w !! a = Some actor → gp actor = int g → safe g →
    success (purchaseItem id t a i w).1 = true →
    ∃ item e,
      catalog w !! i = Some item ∧ items (shopConfig w) !! i = Some e
      ∧ canAfford actor (getItemPrice item (Some e)) = true
      ∧ ∀ p, getItemPrice item (Some e) = int p → safe p → safe (g - p) →
             p ≤ g
             ∧ gp <$> actors (purchaseItem id t a i w).2 !! a = Some (int (g - p))
             ∧ 0 ≤ g - p.
Proof.
  intros id t a i w actor g Ha Hg Hsafe Hok.
  destruct (purchaseItem id t a i w) as [r w'] eqn:Hrun.
  destruct (purchaseItem_success _ _ _ _ _ _ _ Hrun Hok)
    as (actor' & item & e & Ha' & Hi & He & _ & Haff & Hact & _).
  rewrite Ha in Ha'. injection Ha' as <-.
  exists item, e. repeat (split; [done|]). intros p Hp Hsp Hsgp.
  assert (p ≤ g) as Hle.
  { unfold canAfford in Haff. rewrite Hp, Hg in Haff.
    unfold or_else in Haff. rewrite (truthy_int g Hsafe) in Haff.
    destruct (Z.eqb_spec g 0) as [->|Hne]; simpl in Haff;
      unfold ge, int, num_le in Haff; simpl in Haff;
      rewrite leb_Num in Haff by done; by apply Z.leb_le in Haff. }
  split; [done|]. split; [|lia].
  simpl. rewrite Hact, Hp, Hg. simpl.
  unfold sub, int, num_sub. simpl. by rewrite sub_Num.
Qed.

(** Balance 50, price 30: the hero is left with 20 pieces. *)
Lemma purchaseItem_no_overdraft_witness :
  let w := Demo.shop true 50 (Demo.entry "unlimited" (int 1) Null) in
  gp <$> actors (purchaseItem "id" "now" "hero" "sword" w).2 !! "hero"
  = Some (int 20).
Proof.
  intros w.
  assert (safe 50) as H50 by (unfold safe; lia).
  assert (safe 30) as H30 by (unfold safe; lia).
  assert (safe (50 - 30)) as H20 by (unfold safe; lia).
  destruct (purchaseItem_no_overdraft "id" "now" "hero" "sword" w (Demo.hero 50) 50)
    as (item & e & Hi & He & _ & Hp);
    [reflexivity | reflexivity | exact H50 | reflexivity |].
  injection Hi as <-. injection He as <-.
  exact (proj1 (proj2 (Hp 30 eq_refl H30 H20))).
Defined.

(** X7. The available stock is [null], that is unbounded, exactly for an
    item without shop entry and for an entry whose availability is unlimited,
    whatever stock that entry stores; in every other case it is the current
    stock, else the quantity, else 0. *)
Theorem getAvailableStock_unbounded :
  ∀ (i : string) (w : World),
    (items (shopConfig w) !! i = None → getAvailableStock i w = Null)
    ∧ (∀ e, items (shopConfig w) !! i = Some e →
            availability e = Some AVAILABILITY_TYPES.UNLIMITED →
            getAvailableStock i w = Null)
    ∧ (∀ e, items (shopConfig w) !! i = Some e →
            availability e ≠ Some AVAILABILITY_TYPES.UNLIMITED →
            getAvailableStock i w = currentStock e ?? quantity e ?? int 0
            ∧ is_nullish (getAvailableStock i w) = false).
Proof.
  intros i w. unfold getAvailableStock, getShopConfig. repeat split.
  - by intros ->.
  - intros e -> Hav. unfold is_availability. by rewrite Hav.
  - revert H0. rewrite H. unfold is_availability.
    destruct (availability e) as [k|]; [|done].
    destruct (String.eqb_spec k AVAILABILITY_TYPES.UNLIMITED); [by subst|done].
  - revert H0. rewrite H. unfold is_availability. intros Hav.
    assert ((match availability e with
             | Some a => String.eqb a AVAILABILITY_TYPES.UNLIMITED
             | None => false end) = false) as ->.
    { destruct (availability e) as [k|]; [|done].
      destruct (String.eqb_spec k AVAILABILITY_TYPES.UNLIMITED); [by subst|done]. }
    unfold coalesce. by destruct (currentStock e), (quantity e).
Qed.

(** An unlimited entry that stores a stock of 0 is still unbounded. *)
Lemma getAvailableStock_unbounded_witness :
  getAvailableStock "sword" (Demo.shop true 10 (Demo.entry "unlimited" (int 1) (int 0)))
  = Null.
Proof.
  apply (proj1 (proj2 (getAvailableStock_unbounded "sword"
                         (Demo.shop true 10 (Demo.entry "unlimited" (int 1) (int 0)))))
           (Demo.entry "unlimited" (int 1) (int 0))); reflexivity.
Defined.

(** ** The settings *)

Lemma purchaseItem_shopOpen (id t a i : string) (w : World) :
  shopOpen (purchaseItem id t a i w).2 = shopOpen w.
Proof.
  unfold purchaseItem, getShopConfig.
  destruct (actors w !! a) as [actor|]; [|done].
  destruct (catalog w !! i) as [item|]; [|done].
  destruct (items (shopConfig w) !! i) as [e|]; [|done].
  destruct (is_availability AVAILABILITY_TYPES.LIMITED e
            && le (currentStock e ?? quantity e) (int 0)); [done|].
  destruct (canAfford actor (getItemPrice item (Some e))); [|done].
  simpl. by destruct (is_availability AVAILABILITY_TYPES.LIMITED e).
Qed.

Lemma reserveItem_shopOpen (t id t' a i : string) (w : World) :
  shopOpen (reserveItem t id t' a i w).2 = shopOpen w.
Proof.
  unfold reserveItem, getShopConfig, getReservations.
  destruct (actors w !! a) as [actor|]; [|done].
  destruct (catalog w !! i) as [item|]; [|done].
  destruct (items (shopConfig w) !! i) as [e|]; [|done].
  destruct (is_availability AVAILABILITY_TYPES.RESERVATION e); [|done].
  simpl. by destruct (reservations w !! i ≫= _).
Qed.

Lemma step_shopOpen (s : System.State) (op : System.Op) :
  shopOpen (System.game (System.step s op))
  = xorb (is_toggle op) (shopOpen (System.game s)).
Proof.
  destruct op; simpl; try done.
  - apply purchaseItem_shopOpen.
  - apply reserveItem_shopOpen.
  - unfold updateStock. by destruct (items (getShopConfig (System.game s)) !! itemUuid).
Qed.

(** X8. Only [toggleShop] writes the shop-open flag: no purchase,
    reservation, stock override, log or form operation changes it. Starting
    closed, the shop is open exactly after an odd number of toggles. *)
Theorem shopOpen_only_toggled :
  ∀ (ops : list System.Op) actors users catalog,
    isShopOpen (System.game (System.run ops (System.initial actors users catalog)))
    = Nat.odd (length (List.filter is_toggle ops)).
Proof.
  intros ops A U C.
  assert (∀ s, shopOpen (System.game (System.run ops s))
               = xorb (Nat.odd (length (List.filter is_toggle ops)))
                      (shopOpen (System.game s))) as Hrun.
  { unfold System.run. induction ops as [|op ops IH]; intros s; [done|].
    simpl. rewrite IH, step_shopOpen.
    destruct (is_toggle op); simpl length; [|done].
    rewrite Nat.odd_succ, <- Nat.negb_odd.
    by destruct (Nat.odd _), (shopOpen _). }
  unfold isShopOpen. rewrite Hrun. simpl. by destruct (Nat.odd _).
Qed.

Lemma set_activityLog_same (w : World) : set_activityLog (activityLog w) w = w.
Proof. by destruct w. Qed.

Lemma remove_first_absent (entryId : string) (log : list LogEntry) :
  (∀ x, x ∈ log → log_id x ≠ entryId) → remove_first entryId log = log.
Proof.
  induction log as [|e log IH]; intros Hno; [done|]. simpl.
  destruct (String.eqb_spec (log_id e) entryId) as [Heq|_].
  - destruct (Hno e); [by left | done].
  - rewrite IH; [done|]. intros x Hx. apply Hno. by right.
Qed.

Lemma remove_first_present (entryId : string) (l1 l2 : list LogEntry) (e : LogEntry) :
  log_id e = entryId → (∀ x, x ∈ l1 → log_id x ≠ entryId) →
  remove_first entryId (l1 ++ e :: l2) = l1 ++ l2.
Proof.
  intros He. induction l1 as [|x l1 IH]; intros Hno; simpl.
  - by rewrite He, String.eqb_refl.
  - destruct (String.eqb_spec (log_id x) entryId) as [Heq|_].
    + destruct (Hno x); [by left | done].
    + rewrite IH; [done|]. intros y Hy. apply Hno. by right.
Qed.

(** X9. Deleting a log entry by id removes the first (newest) entry with
    that id and nothing else, the order of the others being kept; when no
    entry has the id the world stays as it is. *)
Theorem deleteActivityLogEntry_first :
  ∀ (entryId : string) (w : World),
    ((∀ x, x ∈ activityLog w → log_id x ≠ entryId) →
     deleteActivityLogEntry entryId w = w)
    ∧ (∀ l1 e l2,
          activityLog w = l1 ++ e :: l2 → log_id e = entryId →
          (∀ x, x ∈ l1 → log_id x ≠ entryId) →
          activityLog (deleteActivityLogEntry entryId w) = l1 ++ l2).
Proof.
  intros entryId w. unfold deleteActivityLogEntry, getActivityLog. split.
  - intros Hno. rewrite remove_first_absent by done. apply set_activityLog_same.
  - intros l1 e l2 Hlog He Hno. simpl. rewrite Hlog.
    by apply remove_first_present.
Qed.

(** Of the entries c, b, a the middle one is deleted. *)
Lemma deleteActivityLogEntry_first_witness :
  let w := set_activityLog Scenario.log3
             (Demo.shop true 10 (Demo.entry "unlimited" (int 1) Null)) in
  activityLog (deleteActivityLogEntry "b" w)
  = [stamp Demo.bought "c" "t3"; stamp Demo.bought "a" "t1"].
Proof.
  intros w.
  apply (proj2 (deleteActivityLogEntry_first "b" w)
           [stamp Demo.bought "c" "t3"] (stamp Demo.bought "b" "t2")
           [stamp Demo.bought "a" "t1"]).
  - reflexivity.
  - reflexivity.
  - intros x Hx. apply list_elem_of_singleton in Hx as ->. discriminate.
Defined.

(** X10. Clearing the reservations of an item leaves no reservation for
    it and does not touch the lists of the other items; afterwards every
    existing actor, also one who held a reservation before, can reserve the
    item again if it is still offered for reservation. *)
Theorem clearItemReservations_reopens :
  ∀ (i : string) (w : World),
    (∀ a, ¬ reserved a i (clearItemReservations i w))
    ∧ (∀ j, j ≠ i →
            reservations (clearItemReservations i w) !! j = reservations w !! j)
    ∧ (∀ t id t' a actor item e,
          actors w !! a = Some actor → catalog w !! i = Some item →
          items (shopConfig w) !! i = Some e →
          availability e = Some AVAILABILITY_TYPES.RESERVATION →
          success (reserveItem t id t' a i (clearItemReservations i w)).1 = true).
Proof.
  intros i w. unfold clearItemReservations, getReservations. split; [|split].
  - intros a (l & r & Hl & _). simpl in Hl. by rewrite lookup_delete_eq in Hl.
  - intros j Hne. simpl. by rewrite lookup_delete_ne.
  - intros t id t' a actor item e Ha Hi He Hav.
    unfold reserveItem, getShopConfig, getReservations, is_availability. simpl.
    rewrite Ha, Hi, He, Hav, lookup_delete_eq. reflexivity.
Qed.

(** The hero holds a reservation for the sword; once the GM cleared the
    reservations of the sword the hero can reserve it again. *)
Lemma clearItemReservations_reopens_witness :
  success (reserveItem "u" "id2" "u'" "hero" "sword" Scenario.reserved_by_hero).1 = false
  ∧ success (reserveItem "u" "id2" "u'" "hero" "sword"
               (clearItemReservations "sword" Scenario.reserved_by_hero)).1 = true.
Proof.
  split; [reflexivity|].
  apply (proj2 (proj2 (clearItemReservations_reopens "sword" Scenario.reserved_by_hero))
           "u" "id2" "u'" "hero" (Demo.hero 10) Demo.sword
           (Demo.entry "reservation" (int 1) Null)); reflexivity.
Defined.

(** ** The callback registry *)

Section RegistryFacts.

Context {S : Type}.
Implicit Types (c cb : SocketRegistry.Callback S).
Implicit Types (reg : gmap string (list (SocketRegistry.Callback S))).

Lemma callbacks_for_on (event : string) cb reg :
  SocketRegistry.callbacks_for event (SocketRegistry.on event cb reg)
  = SocketRegistry.callbacks_for event reg ++ [cb].
Proof.
  unfold SocketRegistry.callbacks_for, SocketRegistry.on.
  rewrite lookup_alter_eq.
  destruct (reg !! event) as [l|] eqn:E; simpl.
  - by rewrite E.
  - by rewrite lookup_insert_eq.
Qed.

Lemma callbacks_for_on_ne (event event' : string) cb reg :
  event ≠ event' →
  SocketRegistry.callbacks_for event' (SocketRegistry.on event cb reg)
  = SocketRegistry.callbacks_for event' reg.
Proof.
  intros Hne. unfold SocketRegistry.callbacks_for, SocketRegistry.on.
  rewrite lookup_alter_ne by done.
  destruct (reg !! event); [done|]. by rewrite lookup_insert_ne.
Qed.

Lemma indexOf_None cb (l : list (SocketRegistry.Callback S)) :
  SocketRegistry.indexOf cb l = None
  ↔ ∀ c, c ∈ l → SocketRegistry.cb_id c ≠ SocketRegistry.cb_id cb.
Proof.
  induction l as [|x l IH]; simpl.
  - split; [by intros _ c ?%elem_of_nil | done].
  - destruct (Nat.eqb_spec (SocketRegistry.cb_id x) (SocketRegistry.cb_id cb)) as [Heq|Hne].
    + split; [done|]. intros H. destruct (H x); [by left | done].
    + rewrite fmap_None, IH. split.
      * intros H c [->|Hc]%elem_of_cons; [done | by apply H].
      * intros H c Hc. apply H. by right.
Qed.

Lemma indexOf_first cb (l1 l2 : list (SocketRegistry.Callback S)) c :
  SocketRegistry.cb_id c = SocketRegistry.cb_id cb →
  (∀ x, x ∈ l1 → SocketRegistry.cb_id x ≠ SocketRegistry.cb_id cb) →
  SocketRegistry.indexOf cb (l1 ++ c :: l2) = Some (length l1).
Proof.
  intros Hc. induction l1 as [|x l1 IH]; intros Hno; simpl.
  - by rewrite Hc, Nat.eqb_refl.
  - destruct (Nat.eqb_spec (SocketRegistry.cb_id x) (SocketRegistry.cb_id cb)) as [Heq|_].
    + destruct (Hno x); [by left | done].
    + rewrite IH; [done|]. intros y Hy. apply Hno. by right.
Qed.

Lemma delete_middle {A} (l1 l2 : list A) (x : A) :
  delete (length l1) (l1 ++ x :: l2) = l1 ++ l2.
Proof. induction l1 as [|y l1 IH]; simpl; [done|]. by rewrite IH. Qed.

(** X11. [on] registers the callback after those already registered for
    the event and leaves the other events alone; [off] for a callback that
    is not registered for the event changes nothing; and [off] right after
    [on] of a callback that was not registered before gives back the list of
    callbacks the event had. *)
Theorem on_off_round_trip :
  ∀ (event : string) cb reg,
    SocketRegistry.callbacks_for event (SocketRegistry.on event cb reg)
    = SocketRegistry.callbacks_for event reg ++ [cb]
    ∧ (∀ event', event ≠ event' →
         SocketRegistry.callbacks_for event' (SocketRegistry.on event cb reg)
         = SocketRegistry.callbacks_for event' reg)
    ∧ ((∀ c, c ∈ SocketRegistry.callbacks_for event reg →
             SocketRegistry.cb_id c ≠ SocketRegistry.cb_id cb) →
       SocketRegistry.off event cb reg = reg
       ∧ SocketRegistry.callbacks_for event
           (SocketRegistry.off event cb (SocketRegistry.on event cb reg))
         = SocketRegistry.callbacks_for event reg).
Proof.
  intros event cb reg. split; [apply callbacks_for_on|].
  split; [intros event'; apply callbacks_for_on_ne|].
  intros Hfresh. split.
  - unfold SocketRegistry.off.
    by rewrite (proj2 (indexOf_None cb _) Hfresh).
  - unfold SocketRegistry.off. rewrite callbacks_for_on.
    rewrite (indexOf_first cb _ [] cb eq_refl Hfresh).
    unfold SocketRegistry.callbacks_for at 1. rewrite lookup_alter_eq.
    fold (SocketRegistry.callbacks_for event (SocketRegistry.on event cb reg)).
    pose proof (callbacks_for_on event cb reg) as Hon.
    unfold SocketRegistry.callbacks_for in Hon at 1.
    destruct (SocketRegistry.on event cb reg !! event) as [l|] eqn:E; simpl in *.
    + rewrite Hon, (delete_middle _ [] cb). apply app_nil_r.
    + by destruct (SocketRegistry.callbacks_for event reg).
Qed.

(** X12. [off] removes one registration, the first one of that callback:
    a callback registered twice for an event is still registered once after
    one [off], and the callbacks around it keep their order. *)
Theorem off_removes_first :
  ∀ (event : string) cb reg (l1 l2 : list (SocketRegistry.Callback S)) c,
    SocketRegistry.callbacks_for event reg = l1 ++ c :: l2 →
    SocketRegistry.cb_id c = SocketRegistry.cb_id cb →
    (∀ x, x ∈ l1 → SocketRegistry.cb_id x ≠ SocketRegistry.cb_id cb) →
    SocketRegistry.callbacks_for event (SocketRegistry.off event cb reg) = l1 ++ l2
    ∧ ∀ event', event ≠ event' →
        SocketRegistry.callbacks_for event' (SocketRegistry.off event cb reg)
        = SocketRegistry.callbacks_for event' reg.
Proof.
  intros event cb reg l1 l2 c Hl Hc Hno. unfold SocketRegistry.off.
  rewrite Hl, (indexOf_first cb l1 l2 c Hc Hno). split.
  - unfold SocketRegistry.callbacks_for in *. rewrite lookup_alter_eq.
    destruct (reg !! event) as [l|]; simpl in *.
    + rewrite Hl. apply delete_middle.
    + by destruct l1.
  - intros event' Hne. unfold SocketRegistry.callbacks_for.
    by rewrite lookup_alter_ne.
Qed.

Lemma run_callbacks_app (payload : Payload) (l1 l2 : list (SocketRegistry.Callback S))
    (s : S) :
  SocketRegistry.run_callbacks payload (l1 ++ l2) s
  = let '(s1, e1) := SocketRegistry.run_callbacks payload l1 s in
    let '(s2, e2) := SocketRegistry.run_callbacks payload l2 s1 in
    (s2, e1 ++ e2).
Proof.
  revert s. induction l1 as [|c l1 IH]; intros s; simpl.
  - by destruct (SocketRegistry.run_callbacks payload l2 s).
  - destruct (SocketRegistry.cb_run c payload s) as [s'|s']; rewrite IH.
    + done.
    + destruct (SocketRegistry.run_callbacks payload l1 s') as [s1 e1].
      by destruct (SocketRegistry.run_callbacks payload l2 s1).
Qed.

(** X13. A callback that throws does not stop the others: the callbacks
    registered after it are still called, in order, on the state it left
    behind, exactly as after a callback that returned; only its id is added
    to the logged errors. A request or a reply, which has no event name,
    triggers no callback at all. *)
Theorem _handleMessage_isolates_errors :
  ∀ (payload : Payload) (l1 l2 : list (SocketRegistry.Callback S)) c (s : S),
    (SocketRegistry.run_callbacks payload (l1 ++ c :: l2) s
     = let '(s1, e1) := SocketRegistry.run_callbacks payload l1 s in
       match SocketRegistry.cb_run c payload s1 with
       | SocketRegistry.Returned s2 =>
           let '(s3, e3) := SocketRegistry.run_callbacks payload l2 s2 in
           (s3, e1 ++ e3)
       | SocketRegistry.Threw s2 =>
           let '(s3, e3) := SocketRegistry.run_callbacks payload l2 s2 in
           (s3, e1 ++ SocketRegistry.cb_id c :: e3)
       end)
    ∧ ∀ reg data, action_of data ≠ None →
        SocketRegistry._handleMessage data reg s = (s, []).
Proof.
  intros payload l1 l2 c s. split.
  - rewrite run_callbacks_app.
    destruct (SocketRegistry.run_callbacks payload l1 s) as [s1 e1]. simpl.
    destruct (SocketRegistry.cb_run c payload s1) as [s2|s2]; [done|].
    by destruct (SocketRegistry.run_callbacks payload l2 s2).
  - intros reg data Hact. by destruct data.
Qed.

End RegistryFacts.

(** Callback 1 is registered before and after callback 2; one [off]
    leaves callback 2 and the later registration of callback 1. *)
Lemma off_removes_first_witness :
  let reg := SocketRegistry.on "refreshUI" (Scenario.counter 1)
               (SocketRegistry.on "refreshUI" (Scenario.counter 2)
                  (SocketRegistry.on "refreshUI" (Scenario.counter 1) ∅)) in
  SocketRegistry.callbacks_for "refreshUI"
    (SocketRegistry.off "refreshUI" (Scenario.counter 1) reg)
  = [Scenario.counter 2; Scenario.counter 1].
Proof.
  intros reg.
  apply (proj1 (off_removes_first "refreshUI" (Scenario.counter 1) reg []
                  [Scenario.counter 2; Scenario.counter 1] (Scenario.counter 1)
                  eq_refl eq_refl (λ x Hx, False_ind _ (proj1 (elem_of_nil x) Hx)))).
Defined.

(** A fresh callback is registered and removed again. *)
Lemma on_off_round_trip_witness :
  let reg := SocketRegistry.on "refreshUI" (Scenario.counter 2) ∅ in
  SocketRegistry.callbacks_for "refreshUI"
    (SocketRegistry.off "refreshUI" (Scenario.counter 1)
       (SocketRegistry.on "refreshUI" (Scenario.counter 1) reg))
  = [Scenario.counter 2].
Proof.
  intros reg.
  destruct (on_off_round_trip "refreshUI" (Scenario.counter 1) reg) as (_ & _ & H).
  destruct H as [_ H].
  - intros c Hc. apply list_elem_of_singleton in Hc as ->. discriminate.
  - exact H.
Defined.

(** A purchase request arrives where two callbacks are registered, one of
    which throws: nothing is called, since a request has no event name. *)
Lemma _handleMessage_isolates_errors_witness :
  SocketRegistry._handleMessage (Request "purchaseRequest" "hero" "sword" None)
    (SocketRegistry.on "refreshUI" (Scenario.thrower 2)
       (SocketRegistry.on "refreshUI" (Scenario.counter 1) ∅)) 0%nat
  = (0%nat, []).
Proof.
  apply (proj2 (_handleMessage_isolates_errors PEmpty [] [] (Scenario.counter 1) 0%nat)).
  discriminate.
Defined.

(** ** The listeners of module.js *)

(** X14. The GM's request listener reacts to purchase and reserve requests
    only: a reply, a broadcast event or a request with another action leaves
    the world as it is and puts nothing on the channel. To a purchase or
    reserve request it answers with exactly one reply, the last object it
    emits, which carries the result of the transaction; it shows no
    notification itself, and when the transaction failed the world is
    unchanged and the reply is all it emits. *)
Theorem onRequest_answers_requests_only :
  ∀ (gm : User) (t id t' : string) (data : SocketData) (w : World),
    let out := Main.onRequest gm t id t' data w in
    notified out = []
    ∧ (action_of data ≠ Some "purchaseRequest" →
       action_of data ≠ Some "reserveRequest" →
       world out = w ∧ emitted out = [])
    ∧ (∀ action a i sender,
          data = Request action a i sender →
          action = "purchaseRequest" ∨ action = "reserveRequest" →
          ∃ replyAction result,
            last (emitted out) = Some (Reply replyAction result sender)
            ∧ length (List.filter is_reply (emitted out)) = 1%nat
            ∧ (result, world out)
              = (if String.eqb action "purchaseRequest"
                 then purchaseItem id t a i w
                 else reserveItem t id t' a i w)
            ∧ (success result = false → world out = w ∧ length (emitted out) = 1%nat)).
Proof.
  intros gm t id t' data w out. subst out. split; [|split].
  - unfold Main.onRequest. destruct data as [action a i sender| |]; [|done..].
    destruct (String.eqb action "purchaseRequest").
    + by destruct (purchaseItem id t a i w).
    + destruct (String.eqb action "reserveRequest"); [|done].
      by destruct (reserveItem t id t' a i w).
  - unfold Main.onRequest. destruct data as [action a i sender| |]; [|done..].
    simpl. intros H1 H2.
    destruct (String.eqb_spec action "purchaseRequest") as [->|_]; [done|].
    destruct (String.eqb_spec action "reserveRequest") as [->|_]; done.
  - intros action a i sender -> Hact. unfold Main.onRequest.
    destruct Hact as [-> | ->]; simpl.
    + pose proof (purchaseItem_failure id t a i w) as Hfail.
      destruct (purchaseItem id t a i w) as [r w'].
      exists "purchaseResult", r. simpl in *.
      destruct (success r); simpl; repeat (split; [done|]); [done|].
      intros _. by rewrite Hfail.
    + pose proof (reserveItem_failure t id t' a i w) as Hfail.
      destruct (reserveItem t id t' a i w) as [r w'].
      exists "reserveResult", r. simpl in *.
      destruct (success r); simpl; repeat (split; [done|]); [done|].
      intros _. by rewrite Hfail.
Qed.

(** The GM's session receives its own reply: nothing happens. *)
Lemma onRequest_answers_requests_only_witness :
  let w := Demo.shop true 100 (Demo.entry "limited" (int 3) Null) in
  world (Main.onRequest Demo.gm "t" "id" "t'"
           (Reply "purchaseResult" SoldOut (Some "u1")) w) = w.
Proof.
  intros w.
  destruct (onRequest_answers_requests_only Demo.gm "t" "id" "t'"
              (Reply "purchaseResult" SoldOut (Some "u1")) w) as (_ & H & _).
  destruct H as [H _]; [discriminate | discriminate | exact H].
Defined.

(** X15. The result listener shows something only for a purchase or
    reserve result whose [targetUser] is the id of the session's user, and
    then it shows the message of that result once: as information when the
    transaction succeeded, as a warning when it failed. Requests, events and
    results addressed to nobody or to someone else are ignored. *)
Theorem onResult_shows_own_results :
  ∀ (user : User) (data : SocketData),
    (Main.onResult user data ≠ [] →
     ∃ action result,
       data = Reply action result (Some (user_id user))
       ∧ (action = "purchaseResult" ∨ action = "reserveResult")
       ∧ Main.onResult user data
         = [if success result then Info (message result) else Warn (message result)])
    ∧ (∀ action result,
          action = "purchaseResult" ∨ action = "reserveResult" →
          Main.onResult user (Reply action result (Some (user_id user)))
          = [if success result then Info (message result) else Warn (message result)]).
Proof.
  intros user data. split.
  - unfold Main.onResult, Main.is_target, notify.
    destruct data as [| action result target |]; simpl; [done| |done].
    destruct target as [u|]; [|done].
    destruct (String.eqb_spec u (user_id user)) as [->|]; [|done].
    destruct (String.eqb_spec action "purchaseResult") as [->|_]; simpl.
    + intros _. exists "purchaseResult", result. auto.
    + destruct (String.eqb_spec action "reserveResult") as [->|_]; [|done].
      intros _. exists "reserveResult", result. auto.
  - intros action result Hact. unfold Main.onResult, Main.is_target, notify. simpl.
    rewrite String.eqb_refl. by destruct Hact as [-> | ->].
Qed.

(** A sold-out result addressed to Ann is shown to Ann as a warning. *)
Lemma onResult_shows_own_results_witness :
  Main.onResult Demo.player (Reply "purchaseResult" SoldOut (Some "u1"))
  = [Warn (Localize "ARENA_MARKET.Notifications.ItemSoldOut")].
Proof.
  apply (proj2 (onResult_shows_own_results Demo.player
                  (Reply "purchaseResult" SoldOut (Some "u1")))
           "purchaseResult" SoldOut).
  by left.
Defined.

(** ** The buttons of the player shop *)

(** X16. In a session that is not the GM's the buy and reserve buttons
    never write anything: the world is as before, and what goes on the
    channel is one request, with the selected actor and the item, when an
    actor is selected and the shop is open, and nothing otherwise. *)
Theorem PlayerShop_player_only_requests :
  ∀ (user : User) (sel : option string) (t id t' uuid : string) (w : World),
    isGM user = false →
    let requested := negb (PlayerShopData.unset sel) && isShopOpen w in
    let a := default "" sel in
    world (PlayerShop._purchaseItem user sel id t uuid w) = w
    ∧ emitted (PlayerShop._purchaseItem user sel id t uuid w)
      = (if requested then [Request "purchaseRequest" a uuid None] else [])
    ∧ world (PlayerShop._reserveItem user sel t id t' uuid w) = w
    ∧ emitted (PlayerShop._reserveItem user sel t id t' uuid w)
      = (if requested then [Request "reserveRequest" a uuid None] else []).
Proof.
  intros user sel t id t' uuid w Hgm.
  unfold PlayerShop._purchaseItem, PlayerShop._reserveItem, PlayerShopData.unset.
  rewrite Hgm. destruct sel as [a|]; simpl; [|done].
  destruct (String.eqb a ""); simpl; [done|].
  by destruct (isShopOpen w).
Qed.

(** Ann clicks buy for the selected hero while the shop is open. *)
Lemma PlayerShop_player_only_requests_witness :
  let w := Demo.shop true 100 (Demo.entry "limited" (int 3) Null) in
  world (PlayerShop._purchaseItem Demo.player (Some "hero") "id" "t" "sword" w) = w.
Proof.
  intros w.
  apply (proj1 (PlayerShop_player_only_requests Demo.player (Some "hero")
                  "t" "id" "t'" "sword" w eq_refl)).
Defined.

(** ** The data of the shop window *)

Lemma category_items_uuids (sel : option string) (gold : value)
    (docs : list (string * Item)) (w : World) :
  PlayerShopData.view_uuid <$> PlayerShopData.category_items sel gold docs w
  = List.filter (configured w) (fst <$> docs).
Proof.
  unfold PlayerShopData.category_items, configured.
  induction docs as [|[uuid item] docs IH]; [done|]. cbn [fmap list_fmap omap list_omap List.filter fst].
  case_bool_decide as Hcfg.
  - destruct Hcfg as [e ->]. cbn [fmap list_fmap]. by rewrite IH.
  - destruct (items (getShopConfig w) !! uuid) as [e|] eqn:E; [|done].
    destruct Hcfg. by eexists.
Qed.

Lemma category_items_nonempty (sel : option string) (gold : value)
    (docs : list (string * Item)) (w : World) :
  Nat.ltb 0 (length (PlayerShopData.category_items sel gold docs w))
  = existsb (λ d, configured w d.1) docs.
Proof.
  unfold PlayerShopData.category_items, configured.
  induction docs as [|[uuid item] docs IH]; [done|].
  cbn [omap list_omap existsb fst]. case_bool_decide as Hcfg.
  - by destruct Hcfg as [e ->].
  - destruct (items (getShopConfig w) !! uuid) as [e|] eqn:E; [|done].
    destruct Hcfg. by eexists.
Qed.

Lemma category_items_elem (sel : option string) (gold : value)
    (docs : list (string * Item)) (w : World) (v : PlayerShopData.ItemView) :
  v ∈ PlayerShopData.category_items sel gold docs w →
  ∃ uuid item e,
    (uuid, item) ∈ docs ∧ items (shopConfig w) !! uuid = Some e
    ∧ v = PlayerShopData.item_view sel gold uuid item e w.
Proof.
  unfold PlayerShopData.category_items. intros Hv.
  apply list_elem_of_omap in Hv as ([uuid item] & Hin & Hsome).
  unfold getShopConfig in Hsome.
  destruct (items (shopConfig w) !! uuid) as [e|] eqn:E; [|done].
  injection Hsome as <-. by exists uuid, item, e.
Qed.

(** What the outer loop adds to the categories it was given. *)
Lemma build_categories_spec (packs : gmap string PlayerShopData.Pack)
    (sel : option string) (gold : value) (act : option string)
    (comps : list string) (acc : list PlayerShopData.Category) (w : World) :
  ∃ added,
    PlayerShopData.build_categories packs sel gold act comps acc w = acc ++ added
    ∧ PlayerShopData.cat_id <$> added = List.filter (has_visible_items packs w) comps
    ∧ ∀ c, c ∈ added →
        ∃ pack, packs !! PlayerShopData.cat_id c = Some pack
                ∧ PlayerShopData.cat_name c = PlayerShopData.pack_label pack
                ∧ PlayerShopData.cat_items c
                  = PlayerShopData.category_items sel gold
                      (PlayerShopData.pack_documents pack) w.
Proof.
  revert acc. induction comps as [|compId comps IH]; intros acc.
  - exists []. simpl. rewrite app_nil_r. split; [done|]. split; [done|].
    by intros c ?%elem_of_nil.
  - cbn [PlayerShopData.build_categories List.filter].
    assert (has_visible_items packs w compId
            = match packs !! compId with
              | Some pack =>
                  Nat.ltb 0 (length (PlayerShopData.category_items sel gold
                                       (PlayerShopData.pack_documents pack) w))
              | None => false
              end) as ->.
    { unfold has_visible_items. destruct (packs !! compId); [|done].
      by rewrite category_items_nonempty. }
    destruct (packs !! compId) as [pack|] eqn:Hpack; [|apply IH].
    destruct (Nat.ltb 0 _) eqn:Hlen; [|apply IH].
    match goal with |- context [acc ++ [?c]] => set (newcat := c) end.
    destruct (IH (acc ++ [newcat])) as (added & Heq & Hids & Hall).
    exists (newcat :: added). rewrite Heq, <- (assoc_L (++)).
    split; [done|]. split; [cbn [fmap list_fmap]; by rewrite <- Hids|].
    intros c [->|Hc]%elem_of_cons; [|by apply Hall].
    exists pack. done.
Qed.

Lemma activate_first_fields (l : list PlayerShopData.Category) :
  PlayerShopData.cat_id <$> PlayerShopData.activate_first l = PlayerShopData.cat_id <$> l
  ∧ ∀ c, c ∈ PlayerShopData.activate_first l →
      ∃ c0, c0 ∈ l ∧ PlayerShopData.cat_id c = PlayerShopData.cat_id c0
            ∧ PlayerShopData.cat_name c = PlayerShopData.cat_name c0
            ∧ PlayerShopData.cat_items c = PlayerShopData.cat_items c0.
Proof.
  destruct l as [|c0 l]; simpl; [split; [done | by intros c ?%elem_of_nil]|].
  split; [done|]. intros c [->|Hc]%elem_of_cons.
  - exists c0. split; [by left | done].
  - exists c. split; [by right | done].
Qed.

(** The categories of [getData], whatever was activated. *)
Lemma getData_categories (user : User) (packs : gmap string PlayerShopData.Pack)
    (pa : list string) (sel act : option string) (w : World) :
  let d := PlayerShopData.getData user packs pa sel act w in
  PlayerShopData.cat_id <$> PlayerShopData.data_categories d
  = List.filter (has_visible_items packs w) (compendiums (shopConfig w))
  ∧ ∀ c, c ∈ PlayerShopData.data_categories d →
      ∃ pack, packs !! PlayerShopData.cat_id c = Some pack
              ∧ PlayerShopData.cat_name c = PlayerShopData.pack_label pack
              ∧ PlayerShopData.cat_items c
                = PlayerShopData.category_items (PlayerShopData.data_selectedActorId d)
                    (PlayerShopData.data_playerGold d)
                    (PlayerShopData.pack_documents pack) w.
Proof.
  intros d. subst d. unfold PlayerShopData.getData, getShopConfig. cbn zeta.
  set (sel' := if PlayerShopData.unset sel && Nat.ltb 0 (length pa)
               then head pa else sel).
  set (gold := or_else (from_option gp Undefined (sel' ≫= λ a, actors w !! a)) (int 0)).
  destruct (build_categories_spec packs sel' gold act (compendiums (shopConfig w)) [] w)
    as (added & Heq & Hids & Hall).
  rewrite app_nil_l in Heq. simpl. rewrite Heq.
  destruct (PlayerShopData.unset act && Nat.ltb 0 (length added)); [|done].
  destruct (activate_first_fields added) as [Hids' Hall']. split.
  - by rewrite Hids'.
  - intros c Hc. destruct (Hall' c Hc) as (c0 & Hc0 & -> & -> & ->). by apply Hall.
Qed.

(** X17. The shop window shows one category for each selected compendium
    that has a pack with at least one item with a shop entry, in the order of
    the configuration, under the label of the pack; compendiums without pack
    or without such an item are left out. In a category it shows the
    documents of the pack that have a shop entry, in the order of the pack:
    an item without shop entry is never shown. *)
Theorem getData_shows_configured_items :
  ∀ (user : User) (packs : gmap string PlayerShopData.Pack) (playerActors : list string)
    (_selectedActorId _activeCategory : option string) (w : World),
    let d := PlayerShopData.getData user packs playerActors
               _selectedActorId _activeCategory w in
    PlayerShopData.cat_id <$> PlayerShopData.data_categories d
    = List.filter (has_visible_items packs w) (compendiums (shopConfig w))
    ∧ ∀ c, c ∈ PlayerShopData.data_categories d →
        PlayerShopData.cat_items c ≠ []
        ∧ ∃ pack, packs !! PlayerShopData.cat_id c = Some pack
                  ∧ PlayerShopData.cat_name c = PlayerShopData.pack_label pack
                  ∧ PlayerShopData.view_uuid <$> PlayerShopData.cat_items c
                    = List.filter (configured w)
                        (fst <$> PlayerShopData.pack_documents pack).
Proof.
  intros user packs pa sel act w d.
  destruct (getData_categories user packs pa sel act w) as [Hids Hall].
  fold d in Hids, Hall. split; [done|]. intros c Hc.
  destruct (Hall c Hc) as (pack & Hpack & Hname & Hitems).
  assert (has_visible_items packs w (PlayerShopData.cat_id c) = true) as Hvis.
  { assert (PlayerShopData.cat_id c ∈ PlayerShopData.cat_id <$> PlayerShopData.data_categories d)
      as Hin by (apply list_elem_of_fmap; eauto).
    rewrite Hids in Hin. apply list_elem_of_In, filter_In in Hin. tauto. }
  split.
  - unfold has_visible_items in Hvis. rewrite Hpack in Hvis.
    rewrite <- category_items_nonempty
      with (sel := PlayerShopData.data_selectedActorId d)
           (gold := PlayerShopData.data_playerGold d) in Hvis.
    rewrite <- Hitems in Hvis. by destruct (PlayerShopData.cat_items c).
  - exists pack. repeat (split; [done|]). rewrite Hitems. apply category_items_uuids.
Qed.

Lemma hasReserved_false (a uuid : string) (w : World) :
  PlayerShopData.hasReserved (Some a) uuid w = false →
  reservations w !! uuid ≫= List.find (λ r, String.eqb (res_actorId r) a) = None.
Proof.
  unfold PlayerShopData.hasReserved, getReservations.
  destruct (reservations w !! uuid) as [l|]; simpl; [|done].
  intros Hex. destruct (List.find _ l) as [r|] eqn:Hfind; [|done].
  apply find_some in Hfind as [Hin Heq].
  assert (existsb (λ r, String.eqb (res_actorId r) a) l = true) as Htrue
    by (apply existsb_exists; eauto).
  congruence.
Qed.

Lemma le_coalesce_zero (v : value) : le (v ?? int 0) (int 0) = false → le v (int 0) = false.
Proof.
  destruct v; unfold coalesce; simpl; intros H; try exact H;
    vm_compute in H; discriminate.
Qed.

(** X18. A button the shop window shows enabled works. If the selected
    actor exists, and the item of the view is the one its uuid resolves to,
    then for an item view that is not disabled the transaction behind its
    button succeeds: the reservation for an item offered for reservation, the
    purchase for every other item. *)
Theorem getData_enabled_succeeds :
  ∀ (user : User) (packs : gmap string PlayerShopData.Pack) (playerActors : list string)
    (_selectedActorId _activeCategory : option string) (w : World)
    (c : PlayerShopData.Category) (v : PlayerShopData.ItemView)
    (a : string) (actor : Actor) (t id t' : string),
    let d := PlayerShopData.getData user packs playerActors
               _selectedActorId _activeCategory w in
    c ∈ PlayerShopData.data_categories d →
    v ∈ PlayerShopData.cat_items c →
    PlayerShopData.data_selectedActorId d = Some a →
    actors w !! a = Some actor →
    (∀ pack item,
        packs !! PlayerShopData.cat_id c = Some pack →
        (PlayerShopData.view_uuid v, item) ∈ PlayerShopData.pack_documents pack →
        catalog w !! PlayerShopData.view_uuid v = Some item) →
    PlayerShopData.view_disabled v = false →
    if PlayerShopData.view_isReservation v
    then success (reserveItem t id t' a (PlayerShopData.view_uuid v) w).1 = true
    else success (purchaseItem id t a (PlayerShopData.view_uuid v) w).1 = true.
Proof.
  intros user packs pa sel act w c v a actor t id t' d Hc Hv Hsel Ha Hcat Hen.
  destruct (getData_categories user packs pa sel act w) as [_ Hall].
  fold d in Hall. destruct (Hall c Hc) as (pack & Hpack & _ & Hitems).
  rewrite Hitems in Hv.
  apply category_items_elem in Hv as (uuid & item & e & Hdoc & He & ->).
  pose proof (Hcat pack item Hpack Hdoc) as Hi. simpl in Hi.
  assert (PlayerShopData.data_playerGold d = or_else (gp actor) (int 0)) as Hgold.
  { subst d. unfold PlayerShopData.getData in *.
    cbn [PlayerShopData.data_playerGold PlayerShopData.data_selectedActorId] in *.
    rewrite Hsel. simpl. by rewrite Ha. }
  rewrite Hsel, Hgold in Hen |- *. simpl in *.
  apply orb_false_elim in Hen as [Hen Hres].
  apply orb_false_elim in Hen as [Hen Haff].
  apply orb_false_elim in Hen as [Hopen Hsold].
  destruct (is_availability AVAILABILITY_TYPES.RESERVATION e) eqn:Hrsv.
  - apply hasReserved_false in Hres.
    unfold reserveItem, getShopConfig, getReservations.
    rewrite Ha, Hi, He, Hrsv. simpl. by rewrite Hres.
  - rewrite andb_true_r in Haff. apply negb_false_iff in Haff.
    unfold purchaseItem, getShopConfig.
    rewrite Ha, Hi, He.
    assert (is_availability AVAILABILITY_TYPES.LIMITED e
            && le (currentStock e ?? quantity e) (int 0) = false) as ->.
    { destruct (is_availability AVAILABILITY_TYPES.LIMITED e) eqn:Hlim; [|done].
      simpl in *. unfold getAvailableStock, getShopConfig in Hsold. rewrite He in Hsold.
      assert (is_availability AVAILABILITY_TYPES.UNLIMITED e = false) as Hunl.
      { unfold is_availability in *. destruct (availability e) as [k|]; [|done].
        apply String.eqb_eq in Hlim. by subst. }
      rewrite Hunl in Hsold.
      apply le_coalesce_zero.
      unfold coalesce in *. by destruct (currentStock e), (quantity e). }
    unfold canAfford. by rewrite Haff.
Qed.

(** Ann's window has one category, the pack of weapons, and in it the
    sword: the axe of the pack has no shop entry. *)
Lemma getData_shows_configured_items_witness :
  PlayerShopData.cat_id <$> PlayerShopData.data_categories Scenario.window = ["pack"]
  ∧ PlayerShopData.view_uuid <$> PlayerShopData.cat_items Scenario.weapons = ["sword"].
Proof.
  destruct (getData_shows_configured_items Demo.player Scenario.packs ["hero"]
              None None Scenario.world) as [Hids Hall].
  split; [unfold Scenario.window; rewrite Hids; reflexivity|].
  destruct (Hall Scenario.weapons) as (_ & pack & Hpack & _ & Hitems).
  - vm_compute. left.
  - rewrite Hitems. injection Hpack as <-. reflexivity.
Defined.

(** The sword is shown enabled to Ann, whose hero has 100 pieces: the
    purchase for the hero succeeds. *)
Lemma getData_enabled_succeeds_witness :
  success (purchaseItem "id" "now" "hero" "sword" Scenario.world).1 = true.
Proof.
  apply (getData_enabled_succeeds Demo.player Scenario.packs ["hero"] None None
           Scenario.world Scenario.weapons Scenario.sword_view "hero" (Demo.hero 100)
           "now" "id" "later").
  - vm_compute. left.
  - left.
  - reflexivity.
  - reflexivity.
  - intros pack item [= <-] Hin. simpl in Hin.
    apply elem_of_cons in Hin as [[= ->] | Hin]; [reflexivity|].
    apply list_elem_of_singleton in Hin. discriminate Hin.
  - reflexivity.
Defined.

(** ** The admin form *)

Lemma _onSaveConfig_items (cs : list string) (draft : gmap string Entry) (w : World) :
  shopConfig (ShopManager._onSaveConfig cs draft w)
  = {| compendiums := cs; items := saved_entry <$> draft |}.
Proof. reflexivity. Qed.

Lemma or_else_1_number (q : value) :
  ∃ n, or_else q (int 1) = VNum n ∧ truthy (VNum n) = true.
Proof.
  unfold or_else. destruct (truthy q) eqn:Hq.
  - destruct q as [| | |n]; try discriminate. by exists n.
  - exists (Num 1). split; [reflexivity|]. vm_compute. reflexivity.
Qed.



(** X20. The form reads the stored entries when its one instance is
    created, and not again. A save from the newly created form keeps the
    current stock of an entry that has one. A save from the form obtained
    again later writes the entries of the draft it has kept, whatever was
    stored in between, so stock sold since the draft was read is put back.
    A quantity edit makes the value entered, 1 in place of NaN and 0, both
    the quantity and the current stock of the saved entry. *)
Theorem _onSaveConfig_writes_draft :
  ∀ (w : World) (i : string),
    (∀ e, items (shopConfig w) !! i = Some e → is_nullish (currentStock e) = false →
          let form := (ShopManagerForm.getInstance None w).1 in
          currentStock <$> items (shopConfig (ShopManagerForm._onSaveConfig form w)) !! i
          = Some (currentStock e))
    ∧ (∀ (form : ShopManagerForm.Form) (w' : World),
         (ShopManagerForm.getInstance (ShopManagerForm.getInstance None w).2 w').1
         = ShopManagerForm.constructor w
         ∧ (ShopManagerForm.getInstance (Some form) w').1 = form
         ∧ items (shopConfig
                    (ShopManagerForm._onSaveConfig
                       (ShopManagerForm.getInstance (Some form) w').1 w'))
           = saved_entry <$> ShopManagerForm._itemConfigs form)
    ∧ (∀ (form : ShopManagerForm.Form) (parsed : number),
         let w' := ShopManagerForm._onSaveConfig
                     (ShopManagerForm._onQuantityChange i parsed form) w in
         currentStock <$> items (shopConfig w') !! i
         = Some (or_else (VNum parsed) (int 1))
         ∧ quantity <$> items (shopConfig w') !! i
           = Some (or_else (VNum parsed) (int 1))).
Proof.
  intros w i. split; [|split].
  - intros e He Hset form. subst form. unfold ShopManagerForm._onSaveConfig.
    rewrite _onSaveConfig_items. simpl.
    unfold ShopManager._loadConfig, getShopConfig. rewrite lookup_fmap, He. simpl.
    unfold coalesce. by rewrite Hset.
  - intros form w'. split; [reflexivity|]. split; [reflexivity|].
    change (ShopManagerForm.getInstance (Some form) w').1 with form.
    unfold ShopManagerForm._onSaveConfig. by rewrite _onSaveConfig_items.
  - intros form parsed w'. subst w'. unfold ShopManagerForm._onSaveConfig.
    rewrite _onSaveConfig_items. simpl.
    unfold ShopManager._onQuantityChange.
    rewrite !lookup_fmap, lookup_insert_eq. simpl.
    destruct (or_else_1_number (VNum parsed)) as (n & -> & Hn).
    unfold coalesce. simpl. unfold or_else. by rewrite Hn.
Qed.

(** The admin opens the form on a stock of three swords and saves. The
    hero buys a sword: two are left. The admin opens the form again and
    saves: the stock is three again, where a newly created form would have
    kept the two. *)
Lemma _onSaveConfig_writes_draft_witness :
  let form := (ShopManagerForm.getInstance None Scenario.world).1 in
  let _instance := (ShopManagerForm.getInstance None Scenario.world).2 in
  let w1 := ShopManagerForm._onSaveConfig form Scenario.world in
  let w2 := (purchaseItem "id" "now" "hero" "sword" w1).2 in
  let again := (ShopManagerForm.getInstance _instance w2).1 in
  currentStock <$> items (shopConfig w2) !! "sword" = Some (int 2)
  ∧ currentStock <$> items (shopConfig (ShopManagerForm._onSaveConfig again w2)) !! "sword"
    = Some (int 3)
  ∧ currentStock <$>
      items (shopConfig
               (ShopManagerForm._onSaveConfig (ShopManagerForm.getInstance None w2).1 w2))
        !! "sword"
    = Some (int 2).
Proof.
  intros form _instance w1 w2 again.
  destruct (_onSaveConfig_writes_draft w2 "sword") as (Hnew & Hkept & _).
  split; [vm_compute; reflexivity|]. split.
  - destruct (Hkept form w2) as (_ & _ & Hitems).
    change again with (ShopManagerForm.getInstance (Some form) w2).1.
    rewrite Hitems. vm_compute. reflexivity.
  - assert (∃ e, items (shopConfig w2) !! "sword" = Some e
                 ∧ currentStock e = int 2) as (e & He & Hcur)
      by (eexists; split; vm_compute; reflexivity).
    rewrite <- Hcur. apply Hnew; [exact He|]. by rewrite Hcur.
Defined.




(** X22. A custom price entered in the form and saved is the effective
    price of the item, whatever its base price; emptying the field and
    saving brings the base price back (0 for an item without one). *)
Theorem _onCustomPriceChange_effective :
  ∀ (cs : list string) (draft : gmap string Entry) (w : World) (i : string)
    (item : Item) (parsed : option number),
    let w' := ShopManager._onSaveConfig cs
                (ShopManager._onCustomPriceChange i parsed draft) w in
    getItemPrice item (getItemConfig i w')
    = match parsed with
      | Some n => VNum n
      | None => or_else (price_value item) (int 0)
      end.
Proof.
  intros cs draft w i item parsed w'. subst w'.
  unfold getItemConfig, getShopConfig. rewrite _onSaveConfig_items. simpl.
  unfold ShopManager._onCustomPriceChange.
  rewrite lookup_fmap, lookup_insert_eq. simpl.
  unfold getItemPrice. simpl. by destruct parsed.
Qed.

Lemma elem_of_set_add (c x : string) (set : list string) :
  x ∈ ShopManagerForm.set_add c set ↔ x = c ∨ x ∈ set.
Proof.
  unfold ShopManagerForm.set_add. case_bool_decide as Hin.
  - split; [by right | by intros [->|]].
  - rewrite elem_of_app, list_elem_of_singleton. tauto.
Qed.

Lemma NoDup_set_add (c : string) (set : list string) :
  NoDup set → NoDup (ShopManagerForm.set_add c set).
Proof.
  intros Hnd. unfold ShopManagerForm.set_add. case_bool_decide as Hin; [done|].
  apply NoDup_app. split; [done|]. split; [|apply NoDup_singleton].
  by intros x Hx ->%list_elem_of_singleton.
Qed.

(** X23. The selected compendiums stay free of duplicates under the check
    boxes: checking a compendium selects it (at the end of the list when it
    is new, without any change when it was selected already), unchecking
    removes it, and no other compendium is selected or removed. *)
Theorem _onCompendiumToggle_set :
  ∀ (compId : string) (checked : bool) (sel : list string),
    NoDup sel →
    NoDup (ShopManagerForm._onCompendiumToggle compId checked sel)
    ∧ (∀ x, x ∈ ShopManagerForm._onCompendiumToggle compId checked sel
            ↔ if decide (x = compId) then checked = true else x ∈ sel)
    ∧ (checked = true → compId ∈ sel →
       ShopManagerForm._onCompendiumToggle compId checked sel = sel).
Proof.
  intros c checked sel Hnd. unfold ShopManagerForm._onCompendiumToggle.
  destruct checked.
  - split; [by apply NoDup_set_add|]. split.
    + intros x. rewrite elem_of_set_add. case_decide; [tauto|]. tauto.
    + intros _ Hin. unfold ShopManagerForm.set_add. by rewrite bool_decide_true.
  - unfold ShopManagerForm.set_delete. split; [by apply NoDup_filter|]. split; [|done].
    intros x. rewrite list_elem_of_filter. case_decide as Hx.
    + subst. split; [by intros [? _] | done].
    + tauto.
Qed.

(** Of the packs a and b, b is unchecked. *)
Lemma _onCompendiumToggle_set_witness :
  NoDup (ShopManagerForm._onCompendiumToggle "b" false ["a"; "b"])
  ∧ "b" ∉ ShopManagerForm._onCompendiumToggle "b" false ["a"; "b"].
Proof.
  destruct (_onCompendiumToggle_set "b" false ["a"; "b"]) as (Hnd & Hin & _).
  - apply NoDup_cons. split; [|apply NoDup_singleton].
    intros H%list_elem_of_singleton. discriminate H.
  - split; [exact Hnd|]. intros Hb. apply Hin in Hb. simpl in Hb. discriminate Hb.
Defined.

(** ** The transactions and the flag, the stock check *)

(** X24. Neither transaction reads the shop-open flag: with the flag set
    either way the purchase and the reservation return the same result and
    write the same things. *)
Theorem transactions_ignore_flag :
  ∀ (b : bool) (t id t' a i : string) (w : World),
    purchaseItem id t a i (set_shopOpen b w)
    = ((purchaseItem id t a i w).1, set_shopOpen b (purchaseItem id t a i w).2)
    ∧ reserveItem t id t' a i (set_shopOpen b w)
      = ((reserveItem t id t' a i w).1, set_shopOpen b (reserveItem t id t' a i w).2).
Proof.
  intros b t id t' a i w.
  split; [apply purchaseItem_ignores_flag | apply reserveItem_ignores_flag].
Qed.

(** X25. For a Limited entry whose current stock or quantity is set, the
    purchase by an existing actor of an existing item fails as sold out
    exactly when the available stock is at most 0, whatever the balance. *)
Theorem purchaseItem_SoldOut_when_stock_set :
  ∀ (id t a i : string) (w : World) (actor : Actor) (item : Item) (e : Entry),
    actors w !! a = Some actor → catalog w !! i = Some item →
    items (shopConfig w) !! i = Some e →
    availability e = Some AVAILABILITY_TYPES.LIMITED →
    currentStock e ?? quantity e ≠ Undefined →
    (purchaseItem id t a i w).1 = SoldOut
    ↔ le (getAvailableStock i w) (int 0) = true.
Proof. intros. by eapply purchaseItem_SoldOut_iff. Qed.

(** No sword is left: the hero, who has 100 pieces, is told so. *)
Lemma purchaseItem_SoldOut_when_stock_set_witness :
  (purchaseItem "id" "now" "hero" "sword"
     (Demo.shop true 100 (Demo.entry "limited" (int 3) (int 0)))).1 = SoldOut.
Proof.
  apply (purchaseItem_SoldOut_when_stock_set "id" "now" "hero" "sword"
           (Demo.shop true 100 (Demo.entry "limited" (int 3) (int 0)))
           (Demo.hero 100) Demo.sword (Demo.entry "limited" (int 3) (int 0)));
    [reflexivity | reflexivity | reflexivity | reflexivity | discriminate | reflexivity].
Defined.

(** ** The player name in the log *)


